(** * Labels tag (src/tags/control/Labels/Labels.js): label set, selection
    dialog and configuration round trip.

    The development embeds the functions of Labels.js as Rocq functions:
    strings are [string]s of 8-bit characters, JavaScript values that reach
    the code are a small tagged union, the browser's [DOMParser] is an
    executable push-down automaton for a documented subset of XML 1.0, and
    the React component is a record of its two state cells with one
    function per handler, the calls into the store being returned as a
    trace. *)

From Stdlib Require Import String Ascii List Bool Arith ZArith NArith Lia.
From Stdlib Require Import DecimalString.
Import ListNotations.
Local Open Scope string_scope.
Local Open Scope nat_scope.
Set Warnings "-register-all".

(** ** JavaScript strings and values *)

Module Js.

(** Text is held as its UTF-8 bytes: a character of the ASCII range is one
    byte, every other character is a sequence of bytes from 128. *)

(** The double quote character, and a string wrapped in double quotes. *)
Definition dq : string := String "034"%char EmptyString.
Definition quoted (s : string) : string := dq ++ s ++ dq.

(** The line feed. *)
Definition lf : string := String "010"%char EmptyString.

(** [String.prototype.toLowerCase] on text of the ASCII range: the letters
    A-Z are mapped to a-z, every other character is kept.  On characters
    beyond ASCII the method follows the Unicode case mappings, which are
    not modelled: this function keeps their bytes, and the functions that
    lower-case text read from a document take the engine's mapping as a
    parameter. *)
Definition lowerChar (c : ascii) : ascii :=
  let n := nat_of_ascii c in
  if (65 <=? n) && (n <=? 90) then ascii_of_nat (n + 32) else c.

Fixpoint toLowerCase (s : string) : string :=
  match s with
  | EmptyString => EmptyString
  | String c r => String (lowerChar c) (toLowerCase r)
  end.

(** White space and line terminators of ECMAScript, by the length of their
    UTF-8 encoding: tab, line feed, vertical tab, form feed, carriage return
    and space; the no-break space U+00A0; U+1680, U+2000 to U+200A, U+2028,
    U+2029, U+202F, U+205F, U+3000 and the byte order mark U+FEFF. *)
Definition isTrimSpace (c : ascii) : bool :=
  let n := nat_of_ascii c in
  ((9 <=? n) && (n <=? 13)) || (n =? 32).

Definition isTrimSpace2 (c d : ascii) : bool :=
  (nat_of_ascii c =? 194) && (nat_of_ascii d =? 160).

Definition isTrimSpace3 (c d e : ascii) : bool :=
  let a := nat_of_ascii c in
  let b := nat_of_ascii d in
  let k := nat_of_ascii e in
  ((a =? 225) && (b =? 154) && (k =? 128))
  || ((a =? 226) && (b =? 128)
      && (((128 <=? k) && (k <=? 138)) || (k =? 168) || (k =? 169) || (k =? 175)))
  || ((a =? 226) && (b =? 129) && (k =? 159))
  || ((a =? 227) && (b =? 128) && (k =? 128))
  || ((a =? 239) && (b =? 187) && (k =? 191)).

(** [String.prototype.trimStart]. *)
Fixpoint trimStart (s : string) : string :=
  match s with
  | EmptyString => EmptyString
  | String c r =>
      if isTrimSpace c then trimStart r
      else
        match r with
        | EmptyString => s
        | String d r2 =>
            if isTrimSpace2 c d then trimStart r2
            else
              match r2 with
              | EmptyString => s
              | String e r3 => if isTrimSpace3 c d e then trimStart r3 else s
              end
        end
  end.

(** The same on text whose bytes are in reverse order. *)
Fixpoint trimStartReversed (s : string) : string :=
  match s with
  | EmptyString => EmptyString
  | String c r =>
      if isTrimSpace c then trimStartReversed r
      else
        match r with
        | EmptyString => s
        | String d r2 =>
            if isTrimSpace2 d c then trimStartReversed r2
            else
              match r2 with
              | EmptyString => s
              | String e r3 => if isTrimSpace3 e d c then trimStartReversed r3 else s
              end
        end
  end.

Fixpoint rev (s : string) : string :=
  match s with
  | EmptyString => EmptyString
  | String c r => rev r ++ String c EmptyString
  end.

(** [String.prototype.trim]. *)
Definition trim (s : string) : string :=
  rev (trimStartReversed (rev (trimStart s))).

(** Text that is well encoded (RFC 3629): [k] bytes of the character at
    hand are still to come, the next of them from [lo] to [hi].  A string
    of JavaScript with a surrogate that has no partner has no such
    encoding. *)
Fixpoint wellEncodedFrom (k lo hi : nat) (s : string) : bool :=
  match s with
  | EmptyString => k =? 0
  | String c r =>
      let n := nat_of_ascii c in
      match k with
      | 0 =>
          if n <? 128 then wellEncodedFrom 0 128 191 r
          else if (194 <=? n) && (n <=? 223) then wellEncodedFrom 1 128 191 r
          else if n =? 224 then wellEncodedFrom 2 160 191 r
          else if n =? 237 then wellEncodedFrom 2 128 159 r
          else if (225 <=? n) && (n <=? 239) then wellEncodedFrom 2 128 191 r
          else if n =? 240 then wellEncodedFrom 3 144 191 r
          else if (241 <=? n) && (n <=? 243) then wellEncodedFrom 3 128 191 r
          else if n =? 244 then wellEncodedFrom 3 128 143 r
          else false
      | S k' => (lo <=? n) && (n <=? hi) && wellEncodedFrom k' 128 191 r
      end
  end.

Definition wellEncoded (s : string) : bool := wellEncodedFrom 0 128 191 s.

(** The integers that a Number holds exactly, the safe integers, which
    ToString prints with all their digits.  The model has no other Number:
    fractions, and integers past 2^53 - 1, which JavaScript prints from
    their shortest digits or with an exponent, are not values of it. *)
Definition maxSafe : Z := 9007199254740991.

Record SafeInt : Type := mkSafeInt {
  int_val : Z;
  int_safe : (Z.abs int_val <=? maxSafe)%Z = true
}.

Definition clamp (n : Z) : Z := Z.max (- maxSafe) (Z.min maxSafe n).

Definition clamp_safe (n : Z) : (Z.abs (clamp n) <=? maxSafe)%Z = true.
Proof. apply Z.leb_le. unfold clamp, maxSafe. lia. Qed.

(** The values that reach the code of Labels.js.  [JToLowerCase] is the
    function object [String.prototype.toLowerCase] itself, which is what the
    property read [s.toLowerCase] (without a call) evaluates to. *)
Inductive Val : Type :=
| JUndefined
| JNull
| JInt (i : SafeInt)
| JStr (s : string)
| JToLowerCase.

(** The Number of a safe integer, as written in the source ([id: 1]).  An
    integer outside the safe range is taken to the nearest bound, so that
    every value made is a value of the model. *)
Definition JNum (n : Z) : Val := JInt (mkSafeInt (clamp n) (clamp_safe n)).

(** [ToString] as applied by a template literal [`${v}`]. *)
Definition toString (v : Val) : string :=
  match v with
  | JUndefined => "undefined"
  | JNull => "null"
  | JInt i => NilEmpty.string_of_int (Z.to_int (int_val i))
  | JStr s => s
  | JToLowerCase => "function toLowerCase() { [native code] }"
  end.

(** Strict equality [===] between a string and a value. *)
Definition strictEqStr (s : string) (v : Val) : bool :=
  match v with
  | JStr t => String.eqb s t
  | _ => false
  end.

(** [Array.prototype.toString] on an array of strings: the elements joined
    by commas.  This is what a template literal does to an array. *)
Fixpoint joinComma (l : list string) : string :=
  match l with
  | [] => EmptyString
  | [x] => x
  | x :: r => x ++ "," ++ joinComma r
  end.

(** How a statement completes. *)
Inductive Completion (A : Type) : Type :=
| Normal (v : A)
| Throw (err : string).
Arguments Normal {A} v.
Arguments Throw {A} err.

End Js.

(** ** The browser's XML parser *)

Module Xml.

(** DOM nodes: elements with their attributes in document order, text, and
    the nodes of the other kinds (comments, processing instructions,
    document types), of which only the name matters here. *)
Record Attr : Type := mkAttr { attr_name : string; attr_value : string }.

Inductive Node : Type :=
| Element (tag : string) (attributes : list Attr) (childNodes : list Node)
| Text (data : string)
| Other (name : string).

Record Document : Type := mkDocument { doc_childNodes : list Node }.

Definition nodeName (n : Node) : string :=
  match n with
  | Element tag _ _ => tag
  | Text _ => "#text"
  | Other name => name
  end.

(** [node.childNodes]: only an element has children. *)
Definition node_childNodes (n : Node) : list Node :=
  match n with
  | Element _ _ kids => kids
  | Text _ | Other _ => []
  end.

(** [node.attributes]: undefined on a node that is not an element. *)
Definition node_attributes (n : Node) : option (list Attr) :=
  match n with
  | Element _ attrs _ => Some attrs
  | Text _ | Other _ => None
  end.

(** [NamedNodeMap.getNamedItem]. *)
Definition getNamedItem (name : string) (attrs : list Attr) : option Attr :=
  find (fun a => String.eqb (attr_name a) name) attrs.

(** Character classes of the grammar. *)
Inductive CharClass : Type :=
| CInvalid      (* control characters that are not XML characters *)
| CNonAscii     (* a byte of a character beyond ASCII *)
| CSpace        (* space, tab, line feed, carriage return *)
| CLt | CGt | CAmp | CDQuote | CSQuote | CSlash | CEq
| CBang | CQuest | CSemi | CHash | CColon | CRBracket
| CNameStart    (* letters and underscore *)
| CNameRest     (* digits, hyphen, full stop *)
| COther.

Definition classify (c : ascii) : CharClass :=
  let n := nat_of_ascii c in
  if 128 <=? n then CNonAscii
  else if (n =? 32) || (n =? 9) || (n =? 10) || (n =? 13) then CSpace
  else if n <? 32 then CInvalid
  else if n =? 60 then CLt
  else if n =? 62 then CGt
  else if n =? 38 then CAmp
  else if n =? 34 then CDQuote
  else if n =? 39 then CSQuote
  else if n =? 47 then CSlash
  else if n =? 61 then CEq
  else if n =? 33 then CBang
  else if n =? 63 then CQuest
  else if n =? 59 then CSemi
  else if n =? 35 then CHash
  else if n =? 58 then CColon
  else if n =? 93 then CRBracket
  else if ((65 <=? n) && (n <=? 90)) || ((97 <=? n) && (n <=? 122)) || (n =? 95)
       then CNameStart
  else if ((48 <=? n) && (n <=? 57)) || (n =? 45) || (n =? 46) then CNameRest
  else COther.

(** Appending one character to an accumulated string. *)
Definition snoc (s : string) (c : ascii) : string := s ++ String c EmptyString.

(** Line ends are normalised before parsing (XML 1.0, 2.11): CR LF and a
    lone CR become LF. *)
Fixpoint normalizeEOL (s : string) : string :=
  match s with
  | EmptyString => EmptyString
  | String c r =>
      if Ascii.eqb c "013"%char then
        match r with
        | String d r' =>
            if Ascii.eqb d "010"%char then String "010"%char (normalizeEOL r')
            else String "010"%char (normalizeEOL r)
        | EmptyString => String "010"%char EmptyString
        end
      else String c (normalizeEOL r)
  end.

(** An element whose start tag has been read and whose end tag has not. *)
Record Frame : Type := mkFrame {
  f_tag : string;
  f_attrs : list Attr;
  f_kids : list Node
}.

(** Where the automaton is inside the markup. *)
Inductive Mode : Type :=
| Outside                       (* before or after the root element *)
| Content (txt : string)        (* character data of the innermost element *)
| ContentRef (txt ref : string) (* after & in character data *)
| TagOpen                       (* after < *)
| OpenName (tag : string)
| InTag (tag : string) (attrs : list Attr)        (* after white space in a start tag *)
| AfterValue (tag : string) (attrs : list Attr)   (* right after an attribute value *)
| AttrName (tag : string) (attrs : list Attr) (an : string)
| AfterAttrName (tag : string) (attrs : list Attr) (an : string)
| BeforeValue (tag : string) (attrs : list Attr) (an : string)
| InValue (tag : string) (attrs : list Attr) (an : string) (q : CharClass) (v : string)
| ValueRef (tag : string) (attrs : list Attr) (an : string) (q : CharClass) (v ref : string)
| EmptySlash (tag : string) (attrs : list Attr)   (* after / in a start tag *)
| CloseName (tag : string)                        (* after </ *)
| AfterCloseName (tag : string).

Inductive PState : Type :=
| Going (m : Mode) (stack : list Frame) (root : option Node)
| NotWellFormed
| Unmodelled.

(** The five predefined entities; any other name is undeclared, which is a
    well-formedness error in a document without a DTD. *)
Definition predefined (ref : string) : option ascii :=
  if String.eqb ref "amp" then Some "&"%char
  else if String.eqb ref "lt" then Some "<"%char
  else if String.eqb ref "gt" then Some ">"%char
  else if String.eqb ref "quot" then Some "034"%char
  else if String.eqb ref "apos" then Some "'"%char
  else None.

(** Character references (XML 1.0, 4.1): decimal digits, or hexadecimal
    digits after a lower-case x, at least one of them. *)
Definition digitVal (hex : bool) (c : ascii) : option N :=
  let n := N_of_ascii c in
  if (48 <=? n)%N && (n <=? 57)%N then Some (n - 48)%N
  else if hex && (97 <=? n)%N && (n <=? 102)%N then Some (n - 87)%N
  else if hex && (65 <=? n)%N && (n <=? 70)%N then Some (n - 55)%N
  else None.

Fixpoint digitsVal (hex : bool) (acc : N) (s : string) : option N :=
  match s with
  | EmptyString => Some acc
  | String c r =>
      match digitVal hex c with
      | Some d => digitsVal hex ((if hex then 16 else 10) * acc + d)%N r
      | None => None
      end
  end.

Definition codePoint (body : string) : option N :=
  match body with
  | EmptyString => None
  | String c r =>
      if Ascii.eqb c "x"%char then
        match r with
        | EmptyString => None
        | _ => digitsVal true 0 r
        end
      else digitsVal false 0 body
  end.

(** The characters of XML 1.0 (production 2). *)
Definition xmlChar (cp : N) : bool :=
  ((cp =? 9) || (cp =? 10) || (cp =? 13)
   || ((32 <=? cp) && (cp <=? 55295))
   || ((57344 <=? cp) && (cp <=? 65533))
   || ((65536 <=? cp) && (cp <=? 1114111)))%N.

(** The UTF-8 bytes of a character. *)
Definition utf8 (cp : N) : string :=
  let byte (n : N) := ascii_of_N n in
  let tail (n : N) := byte (128 + n mod 64)%N in
  if (cp <? 128)%N then String (byte cp) EmptyString
  else if (cp <? 2048)%N then
    String (byte (192 + cp / 64)%N) (String (tail cp) EmptyString)
  else if (cp <? 65536)%N then
    String (byte (224 + cp / 4096)%N)
      (String (tail (cp / 64)%N) (String (tail cp) EmptyString))
  else
    String (byte (240 + cp / 262144)%N)
      (String (tail (cp / 4096)%N)
         (String (tail (cp / 64)%N) (String (tail cp) EmptyString))).

(** What a reference stands for: its replacement text; nothing, when the
    entity is not declared or the character is not one of XML, which is a
    well-formedness error; or a character beyond ASCII while the model is
    confined to ASCII. *)
Inductive Replacement : Type :=
| Replaced (s : string)
| Undeclared
| BeyondAscii.

Definition charRef (wide : bool) (body : string) : Replacement :=
  match codePoint body with
  | Some cp =>
      if xmlChar cp then
        if (cp <? 128)%N || wide then Replaced (utf8 cp) else BeyondAscii
      else Undeclared
  | None => Undeclared
  end.

Definition entityRef (name : string) : Replacement :=
  match predefined name with
  | Some d => Replaced (String d EmptyString)
  | None => Undeclared
  end.

Definition resolve (wide : bool) (ref : string) : Replacement :=
  match ref with
  | String c body => if Ascii.eqb c "#"%char then charRef wide body else entityRef ref
  | EmptyString => entityRef ref
  end.

Definition hasAttr (an : string) (attrs : list Attr) : bool :=
  existsb (fun a => String.eqb (attr_name a) an) attrs.

(** Character data read so far becomes a text node of the open element;
    no node is made of no data. *)
Definition textNode (txt : string) : list Node :=
  match txt with
  | EmptyString => []
  | _ => [Text txt]
  end.

Definition flushText (txt : string) (stack : list Frame) : list Frame :=
  match stack with
  | f :: rest => mkFrame (f_tag f) (f_attrs f) (f_kids f ++ textNode txt)%list :: rest
  | [] => []
  end.

(** A finished element goes to its parent, or becomes the root. *)
Definition complete (n : Node) (stack : list Frame) (root : option Node) : PState :=
  match stack with
  | f :: rest =>
      Going (Content EmptyString)
            (mkFrame (f_tag f) (f_attrs f) (f_kids f ++ [n])%list :: rest) root
  | [] =>
      match root with
      | None => Going Outside [] (Some n)
      | Some _ => NotWellFormed
      end
  end.

Definition openElement (tag : string) (attrs : list Attr)
    (stack : list Frame) (root : option Node) : PState :=
  Going (Content EmptyString) (mkFrame tag attrs [] :: stack) root.

Definition closeElement (tag : string) (stack : list Frame) (root : option Node) : PState :=
  match stack with
  | f :: rest =>
      if String.eqb (f_tag f) tag
      then complete (Element (f_tag f) (f_attrs f) (f_kids f)) rest root
      else NotWellFormed
  | [] => NotWellFormed
  end.

Definition endsWith2Brackets (txt : string) : bool :=
  match Js.rev txt with
  | String a (String b _) => Ascii.eqb a "]"%char && Ascii.eqb b "]"%char
  | _ => false
  end.

Definition stepMode (wide : bool) (m : Mode) (stack : list Frame)
    (root : option Node) (c : ascii) (k : CharClass) : PState :=
  match m with
  | Outside =>
      match k with
      | CSpace => Going Outside stack root
      | CLt => Going TagOpen stack root
      | _ => NotWellFormed
      end
  | Content txt =>
      match k with
      | CLt => Going TagOpen (flushText txt stack) root
      | CAmp => Going (ContentRef txt EmptyString) stack root
      | CGt => if endsWith2Brackets txt then NotWellFormed
               else Going (Content (snoc txt c)) stack root
      | _ => Going (Content (snoc txt c)) stack root
      end
  | ContentRef txt ref =>
      match k with
      | CSemi => match resolve wide ref with
                 | Replaced s => Going (Content (txt ++ s)) stack root
                 | Undeclared => NotWellFormed
                 | BeyondAscii => Unmodelled
                 end
      | CHash => match ref with
                 | EmptyString => Going (ContentRef txt (snoc ref c)) stack root
                 | _ => NotWellFormed
                 end
      | CNameStart => Going (ContentRef txt (snoc ref c)) stack root
      | CNameRest => match ref with
                     | EmptyString => NotWellFormed
                     | _ => Going (ContentRef txt (snoc ref c)) stack root
                     end
      | _ => NotWellFormed
      end
  | TagOpen =>
      match k with
      | CBang | CQuest | CColon => Unmodelled
      | CSlash => match stack with
                  | [] => NotWellFormed
                  | _ => Going (CloseName EmptyString) stack root
                  end
      | CNameStart => match stack, root with
                      | [], Some _ => NotWellFormed
                      | _, _ => Going (OpenName (String c EmptyString)) stack root
                      end
      | _ => NotWellFormed
      end
  | OpenName tag =>
      match k with
      | CNameStart | CNameRest => Going (OpenName (snoc tag c)) stack root
      | CColon => Unmodelled
      | CSpace => Going (InTag tag []) stack root
      | CSlash => Going (EmptySlash tag []) stack root
      | CGt => openElement tag [] stack root
      | _ => NotWellFormed
      end
  | InTag tag attrs =>
      match k with
      | CSpace => Going (InTag tag attrs) stack root
      | CNameStart => Going (AttrName tag attrs (String c EmptyString)) stack root
      | CColon => Unmodelled
      | CSlash => Going (EmptySlash tag attrs) stack root
      | CGt => openElement tag attrs stack root
      | _ => NotWellFormed
      end
  | AfterValue tag attrs =>
      match k with
      | CSpace => Going (InTag tag attrs) stack root
      | CSlash => Going (EmptySlash tag attrs) stack root
      | CGt => openElement tag attrs stack root
      | _ => NotWellFormed
      end
  | AttrName tag attrs an =>
      match k with
      | CNameStart | CNameRest => Going (AttrName tag attrs (snoc an c)) stack root
      | CColon => Unmodelled
      | CSpace => Going (AfterAttrName tag attrs an) stack root
      | CEq => Going (BeforeValue tag attrs an) stack root
      | _ => NotWellFormed
      end
  | AfterAttrName tag attrs an =>
      match k with
      | CSpace => Going (AfterAttrName tag attrs an) stack root
      | CEq => Going (BeforeValue tag attrs an) stack root
      | _ => NotWellFormed
      end
  | BeforeValue tag attrs an =>
      match k with
      | CSpace => Going (BeforeValue tag attrs an) stack root
      | CDQuote => Going (InValue tag attrs an CDQuote EmptyString) stack root
      | CSQuote => Going (InValue tag attrs an CSQuote EmptyString) stack root
      | _ => NotWellFormed
      end
  | InValue tag attrs an q v =>
      match k with
      | CLt => NotWellFormed
      | CAmp => Going (ValueRef tag attrs an q v EmptyString) stack root
      | CSpace => Going (InValue tag attrs an q (snoc v " "%char)) stack root
      | CDQuote =>
          match q with
          | CDQuote => if hasAttr an attrs then NotWellFormed
                       else Going (AfterValue tag (attrs ++ [mkAttr an v])%list) stack root
          | _ => Going (InValue tag attrs an q (snoc v c)) stack root
          end
      | CSQuote =>
          match q with
          | CSQuote => if hasAttr an attrs then NotWellFormed
                       else Going (AfterValue tag (attrs ++ [mkAttr an v])%list) stack root
          | _ => Going (InValue tag attrs an q (snoc v c)) stack root
          end
      | _ => Going (InValue tag attrs an q (snoc v c)) stack root
      end
  | ValueRef tag attrs an q v ref =>
      match k with
      | CSemi => match resolve wide ref with
                 | Replaced s => Going (InValue tag attrs an q (v ++ s)) stack root
                 | Undeclared => NotWellFormed
                 | BeyondAscii => Unmodelled
                 end
      | CHash => match ref with
                 | EmptyString => Going (ValueRef tag attrs an q v (snoc ref c)) stack root
                 | _ => NotWellFormed
                 end
      | CNameStart => Going (ValueRef tag attrs an q v (snoc ref c)) stack root
      | CNameRest => match ref with
                     | EmptyString => NotWellFormed
                     | _ => Going (ValueRef tag attrs an q v (snoc ref c)) stack root
                     end
      | _ => NotWellFormed
      end
  | EmptySlash tag attrs =>
      match k with
      | CGt => complete (Element tag attrs []) stack root
      | _ => NotWellFormed
      end
  | CloseName tag =>
      match k with
      | CNameStart => Going (CloseName (snoc tag c)) stack root
      | CNameRest => match tag with
                     | EmptyString => NotWellFormed
                     | _ => Going (CloseName (snoc tag c)) stack root
                     end
      | CColon => Unmodelled
      | CSpace => match tag with
                  | EmptyString => NotWellFormed
                  | _ => Going (AfterCloseName tag) stack root
                  end
      | CGt => closeElement tag stack root
      | _ => NotWellFormed
      end
  | AfterCloseName tag =>
      match k with
      | CSpace => Going (AfterCloseName tag) stack root
      | CGt => closeElement tag stack root
      | _ => NotWellFormed
      end
  end.

(** The characters U+FFFE and U+FFFF (bytes 239 191 190 and 239 191 191)
    are not XML characters: [c] would complete one of them after [v]. *)
Fixpoint endsEFBF (v : string) : bool :=
  match v with
  | EmptyString => false
  | String a r =>
      match r with
      | String b EmptyString => (nat_of_ascii a =? 239) && (nat_of_ascii b =? 191)
      | _ => endsEFBF r
      end
  end.

Definition isNonCharEnd (v : string) (c : ascii) : bool :=
  endsEFBF v && ((nat_of_ascii c =? 190) || (nat_of_ascii c =? 191)).

(** A byte of a character beyond ASCII is data in character data and in an
    attribute value; in a reference it is part of a name that is not
    declared; anywhere else (in a name, outside the root) it leaves the
    model. *)
Definition stepData (m : Mode) (stack : list Frame) (root : option Node)
    (c : ascii) : PState :=
  match m with
  | Content txt =>
      if isNonCharEnd txt c then NotWellFormed
      else Going (Content (snoc txt c)) stack root
  | InValue tag attrs an q v =>
      if isNonCharEnd v c then NotWellFormed
      else Going (InValue tag attrs an q (snoc v c)) stack root
  | ContentRef _ _ | ValueRef _ _ _ _ _ _ => NotWellFormed
  | _ => Unmodelled
  end.

(** One character.  A control character that is not an XML character is an
    error wherever it stands.  With [wide] off the model is confined to
    ASCII documents: a byte from 128 leaves it. *)
Definition stepWith (wide : bool) (st : PState) (c : ascii) : PState :=
  match st with
  | Going m stack root =>
      match classify c with
      | CInvalid => NotWellFormed
      | CNonAscii => if wide then stepData m stack root c else Unmodelled
      | k => stepMode wide m stack root c k
      end
  | _ => st
  end.

Fixpoint runWith (wide : bool) (st : PState) (s : string) : PState :=
  match s with
  | EmptyString => st
  | String c r => runWith wide (stepWith wide st c) r
  end.

(** The state before the character at which the text stops being well
    formed, or the last state when there is no such character. *)
Fixpoint lastGoing (wide : bool) (st : PState) (s : string) : PState :=
  match s with
  | EmptyString => st
  | String c r =>
      match stepWith wide st c with
      | NotWellFormed => st
      | st' => lastGoing wide st' r
      end
  end.

Definition start : PState := Going Outside [] None.

(** What [parseFromString] returns on an error according to the HTML
    Standard (DOM parsing): a document whose only child is a [parsererror]
    element.  The children of that element, which hold the message of the
    engine, are left out: none of them is named Labels. *)
Definition parsererrorNode : Node := Element "parsererror" [] [].

Definition parsererror : Document := mkDocument [parsererrorNode].

(** What Blink and WebKit return on an error: the tree read before the
    error, its open elements closed, with the [parsererror] element put in
    as the first child of the root; without a root, an html element with a
    body that holds the [parsererror] element. *)
Fixpoint closeFrames (stack : list Frame) (inner : list Node) : option Node :=
  match stack with
  | [] => None
  | f :: rest =>
      let element := Element (f_tag f) (f_attrs f) (f_kids f ++ inner)%list in
      match rest with
      | [] => Some element
      | _ => closeFrames rest [element]
      end
  end.

Definition treeRead (st : PState) : option Node :=
  match st with
  | Going m stack root =>
      match stack with
      | [] => root
      | _ =>
          closeFrames
            match m with
            | Content txt => flushText txt stack
            | _ => stack
            end []
      end
  | _ => None
  end.

Definition keptDocument (st : PState) : Document :=
  match treeRead st with
  | Some (Element tag attrs kids) =>
      mkDocument [Element tag attrs (parsererrorNode :: kids)]
  | _ => mkDocument [Element "html" [] [Element "body" [] [parsererrorNode]]]
  end.

(** [new DOMParser().parseFromString(config, 'application/xml')].  The
    result is [None] for a document outside the subset modelled: comments,
    CDATA sections, processing instructions, the XML and DOCTYPE
    declarations, names of elements and attributes with a colon or with a
    character beyond ASCII and, with [wide] off, any character beyond ASCII,
    written or referred to.  [keep] tells which document an error gives:
    the one of the HTML Standard or the one that keeps the tree. *)
Definition parseFromStringWith (wide keep : bool) (config : string) : option Document :=
  match runWith wide start (normalizeEOL config) with
  | Going Outside [] (Some r) => Some (mkDocument [r])
  | Unmodelled => None
  | _ =>
      Some (if keep then keptDocument (lastGoing wide start (normalizeEOL config))
            else parsererror)
  end.

(** The model confined to ASCII documents, with the error document of the
    HTML Standard. *)
Definition parseFromString (config : string) : option Document :=
  parseFromStringWith false false config.

End Xml.

(** ** Results with effects

    A computation of the component yields the events it caused, in order
    (lines written with [console.error] and calls of store actions), and
    either a value or a thrown exception. *)

Module Eff.
Import Js.

Section Events.
Context {Entry : Type}.

Inductive Event : Type :=
| ConsoleError (msg : string)
| FetchLabelOptions
| ReAssignConfigLbl (fragment : string)
| SaveNewConfig (document : string)
| AddLabel (labels : list Entry).

Definition Run (A : Type) : Type := (list Event * Completion A)%type.

Definition ret {A} (a : A) : Run A := ([], Normal a).
Definition throw {A} (err : string) : Run A := ([], Throw err).
Definition emit (e : Event) : Run unit := ([e], Normal tt).
Definition lift {A} (c : Completion A) : Run A := ([], c).

Definition bind {A B} (m : Run A) (k : A -> Run B) : Run B :=
  match m with
  | (ev, Normal a) => let (ev', r) := k a in ((ev ++ ev')%list, r)
  | (ev, Throw err) => (ev, Throw err)
  end.

End Events.
Arguments Event : clear implicits.
Arguments Run : clear implicits.

End Eff.

Notation "x <- m ;; k" := (Eff.bind m (fun x => k))
  (at level 61, m at next level, right associativity).
Notation "m ;;; k" := (Eff.bind m (fun _ => k))
  (at level 61, right associativity).

(** ** Labels.js *)

Module Labels.
Import Js Xml Eff.

(** A label record as the component handles it: the items of [dummyData],
    of [labelOptions] and of [labelsData].  [isEmpty] is the flag of the
    empty label; [value] is a string, or null for the empty label. *)
Record LabelEntry : Type := mkEntry {
  id : Val;
  value : Val;
  isEmpty : bool
}.

Definition Event := Eff.Event LabelEntry.
Definition Run := Eff.Run LabelEntry.

(** The property read [v.toLowerCase]: the function on a string, a
    TypeError on null and undefined, undefined on the rest. *)
Definition get_toLowerCase (v : Val) : Completion Val :=
  match v with
  | JStr _ => Normal JToLowerCase
  | JNull | JUndefined => Throw "TypeError"
  | _ => Normal JUndefined
  end.

(** The call [v.toLowerCase()]. *)
Definition call_toLowerCase (v : Val) : Completion string :=
  match v with
  | JStr s => Normal (toLowerCase s)
  | _ => Throw "TypeError"
  end.

(** Lines 189-196. *)
Definition dummyData : list LabelEntry :=
  [ mkEntry (JNum 1) (JStr "air_squat.down") false;
    mkEntry (JNum 2) (JStr "air_squat.up") false;
    mkEntry (JNum 3) (JStr "push_press.down") false;
    mkEntry (JNum 4) (JStr "push_press.up") false;
    mkEntry (JNum 5) (JStr "power_clean.up") false;
    mkEntry (JNum 6) (JStr "power_clean.down") false ].

(** *** getDefaultOptions (lines 198-227)

    The browser decides three things that the code leaves to it: which text
    its parser takes ([wide]), which document it returns for text that is
    not well formed ([keep]), and how [toLowerCase] maps the characters
    beyond ASCII ([lower]). *)

Section Engine.
Variables (wide keep : bool) (lower : string -> string).

(** The first loop: the first child whose nodeName is Labels. *)
Definition findLabelsNode (kids : list Node) : option Node :=
  find (fun n => String.eqb (nodeName n) "Labels") kids.

(** The second loop: the lower-cased [value] attribute of every child that
    has one, in order. *)
Fixpoint collectValuesWith (kids : list Node) : list string :=
  match kids with
  | [] => []
  | childNode :: rest =>
      match node_attributes childNode with
      | Some attrs =>
          match getNamedItem "value" attrs with
          | Some val => lower (attr_value val) :: collectValuesWith rest
          | None => collectValuesWith rest
          end
      | None => collectValuesWith rest
      end
  end.

Definition notFoundMsg : string := "Labels node not found in the XML structure.".

(** The body of getDefaultOptions after the parse.  Reading [childNodes] of
    an undefined first child is a TypeError. *)
Definition extractFromDocumentWith (xmlDoc : Document) : Run (list string) :=
  match doc_childNodes xmlDoc with
  | [] => throw "TypeError"
  | viewNode :: _ =>
      match findLabelsNode (node_childNodes viewNode) with
      | Some labelsNode => ret (collectValuesWith (node_childNodes labelsNode))
      | None => emit (ConsoleError notFoundMsg) ;;; ret []
      end
  end.

(** [None] when the document is outside the XML subset modelled. *)
Definition getDefaultOptionsWith (config : string) : option (Run (list string)) :=
  option_map extractFromDocumentWith (parseFromStringWith wide keep config).

End Engine.

(** The instance for ASCII documents, on which [toLowerCase] is the ASCII
    mapping, with the error document of the HTML Standard. *)
Definition collectValues : list Node -> list string :=
  collectValuesWith toLowerCase.

Definition extractFromDocument : Document -> Run (list string) :=
  extractFromDocumentWith toLowerCase.

Definition getDefaultOptions : string -> option (Run (list string)) :=
  getDefaultOptionsWith false false toLowerCase.

(** *** The templates (lines 245-261) *)

Definition labelDecl (label : LabelEntry) : string :=
  "<Label key=" ++ quoted (toString (id label))
  ++ " value=" ++ quoted (toString (value label)) ++ "/>".

Definition getUpdatedConfigLbl (labels : list LabelEntry) : string :=
  "<Labels name=" ++ quoted "tricks" ++ " toName=" ++ quoted "audio"
  ++ " choice=" ++ quoted "multiple" ++ ">" ++ lf
  ++ "        " ++ joinComma (map labelDecl labels) ++ lf
  ++ "      </Labels>".

Definition getUpdatedRootConfig (lblConfig : string) : string :=
  lf
  ++ "    <View>" ++ lf
  ++ "      <Header value=" ++ quoted "Video timeline segmentation via Audio sync trick" ++ "/>" ++ lf
  ++ "      <Video name=" ++ quoted "video" ++ " value=" ++ quoted "$video"
  ++ " sync=" ++ quoted "audio" ++ "></Video>" ++ lf
  ++ "      " ++ lblConfig ++ lf
  ++ "      <Audio name=" ++ quoted "audio" ++ " value=" ++ quoted "$video"
  ++ " sync=" ++ quoted "video" ++ " zoom=" ++ quoted "true"
  ++ " speed=" ++ quoted "true" ++ " volume=" ++ quoted "true" ++ "/>" ++ lf
  ++ "    </View>" ++ lf
  ++ "    ".

(** *** The component HtxLabels (lines 229-348) *)

(** What the component reads from the store.  [labelOptErrMsg] is a string,
    or [None] for null and undefined. *)
Record Store : Type := mkStore {
  config : string;
  labelsData : list LabelEntry;
  labelOptions : list LabelEntry;
  labelOptLoading : bool;
  labelOptErrMsg : option string
}.

(** The two [useState] cells. *)
Record Component : Type := mkComponent {
  openLblSelection : bool;
  labelsSelection : list Val
}.

Definition setOpenLblSelection (b : bool) (c : Component) : Component :=
  mkComponent b (labelsSelection c).

Definition setLabelsSelection (sel : list Val) (c : Component) : Component :=
  mkComponent (openLblSelection c) sel.

(** Line 243, the initial selection:
    [labelsData.map(i => (i.value.toLowerCase))], a property read. *)
Fixpoint initialSelection (data : list LabelEntry) : Completion (list Val) :=
  match data with
  | [] => Normal []
  | i :: rest =>
      match get_toLowerCase (value i) with
      | Throw err => Throw err
      | Normal f =>
          match initialSelection rest with
          | Throw err => Throw err
          | Normal fs => Normal (f :: fs)
          end
      end
  end.

(** Lines 267-275, the effect that runs after the first render and after
    every render in which [labelsData.length] has changed. *)
Definition labelsEffect (s : Store) (c : Component) : option (Run Component) :=
  if 0 <? length (labelsData s) then
    Some (emit (ReAssignConfigLbl (getUpdatedConfigLbl (labelsData s))) ;;; ret c)
  else
    option_map
      (fun extracted =>
         existingLabels <- extracted ;;
         ret (setLabelsSelection (map JStr existingLabels) c))
      (getDefaultOptions (config s)).

(** Lines 277-279. *)
Record SelectOption : Type := mkSelectOption {
  opt_key : Val;
  opt_value : string;
  opt_label : Val
}.

Fixpoint getLabelSelectOptions (data : list LabelEntry) : Completion (list SelectOption) :=
  match data with
  | [] => Normal []
  | item :: rest =>
      match call_toLowerCase (value item) with
      | Throw err => Throw err
      | Normal v =>
          match getLabelSelectOptions rest with
          | Throw err => Throw err
          | Normal os => Normal (mkSelectOption (id item) v (value item) :: os)
          end
      end
  end.

(** Lines 321 and 342: [labelOptErrMsg?.trim()] compared by [!=] with the
    empty string; on null and undefined the left side is undefined, which
    differs from the empty string. *)
Definition errMsgShown (s : Store) : bool :=
  match labelOptErrMsg s with
  | None => true
  | Some msg => negb (String.eqb (trim msg) EmptyString)
  end.

(** Lines 304-347, the evaluation of the returned markup, as far as the
    code of this file can throw in it: when the message is not shown, the
    select is built and getLabelSelectOptions(labelOptions) is called
    (line 336).  [Tree.renderChildren] and the components of the markup are
    not among the sources and are taken to return. *)
Definition render (s : Store) : Completion unit :=
  if errMsgShown s then Normal tt
  else
    match getLabelSelectOptions (labelOptions s) with
    | Throw err => Throw err
    | Normal _ => Normal tt
    end.

(** The first render followed by its two effects (lines 242-243, 304-347,
    263-275).  A render that throws runs no effect. *)
Definition mount (s : Store) : option (Run Component) :=
  match initialSelection (labelsData s) with
  | Throw err => Some (throw err)
  | Normal sel =>
      match render s with
      | Throw err => Some (throw err)
      | Normal _ =>
          option_map (fun eff => emit FetchLabelOptions ;;; eff)
                     (labelsEffect s (mkComponent false sel))
      end
  end.

(** Lines 280-286. *)
Definition handleLabelSelectionChange (v : list Val) (c : Component) : Component :=
  setLabelsSelection v c.

Definition handleAddLabel (c : Component) : Component :=
  setOpenLblSelection true c.

(** Line 290: [data.find(itm => itm.value.toLowerCase() === key)]. *)
Fixpoint findItem (key : Val) (data : list LabelEntry) : Completion (option LabelEntry) :=
  match data with
  | [] => Normal None
  | itm :: rest =>
      match call_toLowerCase (value itm) with
      | Throw err => Throw err
      | Normal v => if strictEqStr v key then Normal (Some itm) else findItem key rest
      end
  end.

(** Lines 288-293, the loop [for (let i = 0; i < labelsSelection.length; i++)]
    with [n] iterations left; an index out of range reads undefined. *)
Fixpoint applyLoop (data : list LabelEntry) (sel : list Val) (n i : nat)
    (labels : list LabelEntry) : Completion (list LabelEntry) :=
  match n with
  | 0 => Normal labels
  | S n' =>
      match findItem (nth i sel JUndefined) data with
      | Throw err => Throw err
      | Normal (Some item) => applyLoop data sel n' (S i) (labels ++ [item])%list
      | Normal None => applyLoop data sel n' (S i) labels
      end
  end.

Definition resolveSelection (data : list LabelEntry) (sel : list Val)
  : Completion (list LabelEntry) :=
  applyLoop data sel (length sel) 0 [].

(** How the promise returned by [saveNewConfig] settles. *)
Inductive Settled : Type :=
| Resolved (saved : bool)      (* with a truthy or a falsy value *)
| Rejected (err : string).

(** Lines 287-299.  The result of the awaited [saveNewConfig] is an input;
    a rejection makes the handler's own promise reject at the [await]. *)
Definition handleApplySelection (persist : Settled) (c : Component) : Run Component :=
  labels <- lift (resolveSelection dummyData (labelsSelection c)) ;;
  let newConfigLbl := getUpdatedConfigLbl labels in
  emit (SaveNewConfig (getUpdatedRootConfig newConfigLbl)) ;;;
  match persist with
  | Rejected err => throw err
  | Resolved saved =>
      (if saved then emit (AddLabel labels) else ret tt) ;;;
      ret (setOpenLblSelection false c)
  end.

(** Lines 300-303; the reset of the selection is commented out. *)
Definition handleDiscardSelection (c : Component) : Component :=
  setOpenLblSelection false c.

(** Line 314, [onCancel] of the modal. *)
Definition onCancel (c : Component) : Component :=
  setOpenLblSelection false c.


(** Lines 310 and 318, [disabled] of Add Label and of Refresh Options. *)
Definition addLabelDisabled (s : Store) : bool := labelOptLoading s.

End Labels.

(** ** The model LabelsModel (lines 97-148) *)

Module LabelSet.

(** A child as the configuration declares it, and the node made from it. *)
Record Snapshot : Type := mkSnapshot {
  s_type : string;
  s_value : option string;
  s_background : option string
}.

Record Child : Type := mkChild {
  c_type : string;
  c_value : option string;
  c_background : option string;
  c_isEmpty : bool
}.

Record Model : Type := mkModel {
  allowempty : bool;
  children : option (list Child)
}.

Record Config : Type := mkConfig {
  cfg_allowempty : bool;
  cfg_children : option (list Snapshot)
}.

(** Modelled from the spec: the Label model is not among the sources.  A
    node is made from its declaration with the empty flag off (section 3,
    isEmptySentinel). *)
Definition node (s : Snapshot) : Child :=
  mkChild (s_type s) (s_value s) (s_background s) false.

(** Modelled from the spec: [setEmpty] of the Label model turns the empty
    flag of the label on. *)
Definition setEmpty (c : Child) : Child :=
  mkChild (c_type c) (c_value c) (c_background c) true.

Definition sameValue (v w : option string) : bool :=
  match v, w with
  | None, None => true
  | Some a, Some b => String.eqb a b
  | _, _ => false
  end.

(** Modelled from the spec: [findLabel] comes from LabelMixin, which is not
    among the sources.  It looks a child up by its value (section 3: the
    null value is reserved for the empty label); the result is the position
    of the first child with that value. *)
Fixpoint findLabelFrom (v : option string) (cs : list Child) (i : nat) : option nat :=
  match cs with
  | [] => None
  | c :: rest => if sameValue (c_value c) v then Some i else findLabelFrom v rest (S i)
  end.

(** Modelled from the spec: [self.findLabel(v)], the lookup above on the
    children of the model; nothing is found while there are no children. *)
Definition findLabel (v : option string) (self : Model) : option nat :=
  match children self with
  | Some cs => findLabelFrom v cs 0
  | None => None
  end.

(** A method call on the child at a position. *)
Fixpoint callAt (i : nat) (f : Child -> Child) (cs : list Child) : list Child :=
  match cs, i with
  | [], _ => []
  | c :: rest, 0 => f c :: rest
  | c :: rest, S j => c :: callAt j f rest
  end.

Section AfterCreate.

(** [defaultStyle.fillcolor] of core/Constants, which is not among the
    sources. *)
Variable fillcolor : string.

(** [self.findLabel], which comes from LabelMixin and is not among the
    sources: the position of the child found for a value, if any. *)
Variable lookup : option string -> Model -> option nat.

Definition emptyParams : Snapshot :=
  mkSnapshot "label" None (Some fillcolor).

(** Lines 116-136.  [empty] is a reference to a child, here its position. *)
Definition afterCreateWith (self : Model) : Model :=
  if allowempty self then
    match lookup None self with
    | Some empty =>
        mkModel (allowempty self) (option_map (callAt empty setEmpty) (children self))
    | None =>
        let children' :=
          match children self with
          | Some cs => node emptyParams :: cs      (* unshift *)
          | None => [node emptyParams]             (* cast *)
          end in
        mkModel (allowempty self) (Some (callAt 0 setEmpty children'))
    end
  else self.

(** Creation of the model from the configuration, followed by the hook. *)
Definition createWith (cfg : Config) : Model :=
  afterCreateWith (mkModel (cfg_allowempty cfg) (option_map (map node) (cfg_children cfg))).

End AfterCreate.

(** The hook and the creation with [findLabel] as modelled above. *)
Definition afterCreate (fillcolor : string) : Model -> Model :=
  afterCreateWith fillcolor findLabel.

Definition create (fillcolor : string) : Config -> Model :=
  createWith fillcolor findLabel.

(** The children as a list, and how many of them are the empty label. *)
Definition childList (self : Model) : list Child :=
  match children self with
  | Some cs => cs
  | None => []
  end.

Definition countEmpty (cs : list Child) : nat :=
  length (filter c_isEmpty cs).

(** What any lookup by value does: the child it finds has the value asked
    for. *)
Definition soundLookup (lookup : option string -> Model -> option nat) : Prop :=
  forall v self i,
    lookup v self = Some i ->
    exists c, nth_error (childList self) i = Some c /\ c_value c = v.

(** A declared child with a value, and the children a configuration
    declares. *)
Definition hasValue (s : Snapshot) : bool :=
  match s_value s with
  | Some _ => true
  | None => false
  end.

Definition declared (cfg : Config) : list Snapshot :=
  match cfg_children cfg with
  | Some l => l
  | None => []
  end.

(** The empty label as afterCreate makes it. *)
Definition sentinel (fillcolor : string) : Child :=
  mkChild "label" None (Some fillcolor) true.

End LabelSet.

(** ** Vocabulary of the statements *)

Module Markup.
Import Js Xml Labels.

(** Characters of the ASCII range that an attribute value in double quotes
    carries unchanged into the DOM: the printable ones and DEL, without the
    double quote, [<] and [&]; so no tab, no line end, no other control
    character. *)
Definition plainChar (c : ascii) : bool :=
  match classify c with
  | CInvalid | CNonAscii | CLt | CAmp | CDQuote => false
  | CSpace => Ascii.eqb c " "%char
  | _ => true
  end.

Fixpoint plainStr (s : string) : bool :=
  match s with
  | EmptyString => true
  | String c r => plainChar c && plainStr r
  end.

Definition plainEntry (e : LabelEntry) : bool :=
  plainStr (toString (id e)) && plainStr (toString (value e)).

(** The same with the characters beyond ASCII, which the parser carries
    unchanged too when [wide] is on: well-encoded text of every character
    but the double quote, [<], [&], the control characters (tab and line
    ends among them) and the two characters U+FFFE and U+FFFF, which are
    not XML characters. *)
Definition plainCharWith (wide : bool) (c : ascii) : bool :=
  match classify c with
  | CInvalid | CLt | CAmp | CDQuote => false
  | CNonAscii => wide
  | CSpace => Ascii.eqb c " "%char
  | _ => true
  end.

Fixpoint allPlain (wide : bool) (s : string) : bool :=
  match s with
  | EmptyString => true
  | String c r => plainCharWith wide c && allPlain wide r
  end.

Fixpoint noNonChar (s : string) : bool :=
  match s with
  | EmptyString => true
  | String a r =>
      match r with
      | String b (String c _) =>
          negb ((nat_of_ascii a =? 239) && (nat_of_ascii b =? 191)
                && ((nat_of_ascii c =? 190) || (nat_of_ascii c =? 191)))
      | _ => true
      end && noNonChar r
  end.

Definition plainStrWith (wide : bool) (s : string) : bool :=
  allPlain wide s && noNonChar s && wellEncoded s.

Definition plainEntryWith (wide : bool) (e : LabelEntry) : bool :=
  plainStrWith wide (toString (id e)) && plainStrWith wide (toString (value e)).

(** The element that one child declaration stands for. *)
Definition declNode (e : LabelEntry) : Node :=
  Element "Label"
    [mkAttr "key" (toString (id e)); mkAttr "value" (toString (value e))] [].

(** The nodes of the declarations joined by commas. *)
Fixpoint joinedNodes (entries : list LabelEntry) : list Node :=
  match entries with
  | [] => []
  | [e] => [declNode e]
  | e :: rest => declNode e :: Text "," :: joinedNodes rest
  end.

Definition indent8 : string := lf ++ "        ".
Definition indent6 : string := lf ++ "      ".

Definition labelsKids (entries : list LabelEntry) : list Node :=
  match entries with
  | [] => [Text (indent8 ++ indent6)]
  | _ => (Text indent8 :: joinedNodes entries ++ [Text indent6])%list
  end.

Definition labelsAttrs : list Attr :=
  [mkAttr "name" "tricks"; mkAttr "toName" "audio"; mkAttr "choice" "multiple"].

Definition labelsElement (entries : list LabelEntry) : Node :=
  Element "Labels" labelsAttrs (labelsKids entries).

(** The element children of a node list. *)
Definition isElement (n : Node) : bool :=
  match n with
  | Element _ _ _ => true
  | Text _ | Other _ => false
  end.


Definition addKids (f : Frame) (kids : list Node) : Frame :=
  mkFrame (f_tag f) (f_attrs f) (f_kids f ++ kids)%list.

(** The skeleton that getUpdatedRootConfig puts around the fragment. *)
Definition indent4 : string := lf ++ "    ".

Definition headerNode : Node :=
  Element "Header"
    [mkAttr "value" "Video timeline segmentation via Audio sync trick"] [].

Definition videoNode : Node :=
  Element "Video"
    [mkAttr "name" "video"; mkAttr "value" "$video"; mkAttr "sync" "audio"] [].

Definition audioNode : Node :=
  Element "Audio"
    [mkAttr "name" "audio"; mkAttr "value" "$video"; mkAttr "sync" "video";
     mkAttr "zoom" "true"; mkAttr "speed" "true"; mkAttr "volume" "true"] [].

Definition viewElement (labels : Node) : Node :=
  Element "View" []
    [Text indent6; headerNode; Text indent6; videoNode; Text indent6;
     labels; Text indent6; audioNode; Text indent4].

Definition valueOf (e : LabelEntry) : string := toString (value e).

(** Line ends: a string without carriage return is left as it is. *)
Fixpoint noCR (s : string) : bool :=
  match s with
  | EmptyString => true
  | String c r => negb (Ascii.eqb c "013"%char) && noCR r
  end.

(** The skeleton of getUpdatedRootConfig before and after the fragment. *)
Definition skeletonBefore : string :=
  lf
  ++ "    <View>" ++ lf
  ++ "      <Header value=" ++ quoted "Video timeline segmentation via Audio sync trick" ++ "/>" ++ lf
  ++ "      <Video name=" ++ quoted "video" ++ " value=" ++ quoted "$video"
  ++ " sync=" ++ quoted "audio" ++ "></Video>" ++ lf
  ++ "      ".

Definition skeletonAfter : string :=
  lf
  ++ "      <Audio name=" ++ quoted "audio" ++ " value=" ++ quoted "$video"
  ++ " sync=" ++ quoted "video" ++ " zoom=" ++ quoted "true"
  ++ " speed=" ++ quoted "true" ++ " volume=" ++ quoted "true" ++ "/>" ++ lf
  ++ "    </View>" ++ lf
  ++ "    ".

(** The open View element when the fragment begins. *)
Definition viewFrame : Frame :=
  mkFrame "View" [] [Text indent6; headerNode; Text indent6; videoNode].

(** The fragment after its first two characters. *)
Definition fragmentTail (entries : list LabelEntry) : string :=
  "abels name=" ++ quoted "tricks" ++ " toName=" ++ quoted "audio"
  ++ " choice=" ++ quoted "multiple" ++ ">" ++ indent8
  ++ joinComma (map labelDecl entries) ++ indent6 ++ "</Labels>".

(** Whether the text is a well-formed document; [None] outside the subset
    modelled. *)
Definition wellFormedWith (wide : bool) (config : string) : option bool :=
  match runWith wide start (normalizeEOL config) with
  | Going Outside [] (Some _) => Some true
  | Going _ _ _ | NotWellFormed => Some false
  | Unmodelled => None
  end.

Definition wellFormed (config : string) : option bool :=
  wellFormedWith false config.

(** The text holds no double quote: written between double quotes, it
    does not end the attribute value. *)
Fixpoint noQuote (s : string) : bool :=
  match s with
  | EmptyString => true
  | String c r => negb (Ascii.eqb c "034"%char) && noQuote r
  end.

Definition quoteFreeId (e : LabelEntry) : bool :=
  noQuote (toString (id e)) && wellEncoded (toString (id e)).

Definition plainValue (wide : bool) (e : LabelEntry) : bool :=
  plainStrWith wide (toString (value e)).

(** The parser has stopped: the text is not well formed, or it has left
    the subset modelled. *)
Definition dead (st : PState) : bool :=
  match st with
  | Going _ _ _ => false
  | _ => true
  end.

(** The same, told apart by what the parser takes: with [wide] on, a text
    of the kind at hand never leaves the subset modelled. *)
Definition stopped (wide : bool) (st : PState) : bool :=
  match st with
  | Going _ _ _ => false
  | NotWellFormed => true
  | Unmodelled => negb wide
  end.

(** The parser is inside an attribute value in double quotes, possibly
    inside a reference. *)
Definition inValueDQ (st : PState) : bool :=
  match st with
  | Going (InValue _ _ _ CDQuote _) _ _
  | Going (ValueRef _ _ _ CDQuote _ _) _ _ => true
  | _ => false
  end.

(** The same place of an attribute value, in another start tag. *)
Definition reframe (tag : string) (attrs : list Attr) (an : string)
    (stack : list Frame) (root : option Node) (st : PState) : PState :=
  match st with
  | Going (InValue _ _ _ q v) _ _ => Going (InValue tag attrs an q v) stack root
  | Going (ValueRef _ _ _ q v ref) _ _ =>
      Going (ValueRef tag attrs an q v ref) stack root
  | _ => st
  end.

(** What the parser makes of the text of a key: the attribute value it
    reads up to the closing quote, with references replaced and white space
    normalised, or nothing when the text breaks the document or stops
    inside a reference. *)
Definition inKey (v : string) : PState :=
  Going (InValue "Label" [] "key" CDQuote v) [] None.

Definition readKey (wide : bool) (s : string) : option string :=
  match runWith wide (inKey EmptyString) (normalizeEOL s) with
  | Going (InValue _ _ _ _ k) _ _ => Some k
  | _ => None
  end.

Definition keyRead (wide : bool) (e : LabelEntry) : bool :=
  match readKey wide (toString (id e)) with
  | Some _ => true
  | None => false
  end.

(** The entry as the parser reads it: its id is the key read. *)
Definition readEntry (wide : bool) (e : LabelEntry) : LabelEntry :=
  mkEntry (JStr match readKey wide (toString (id e)) with
                | Some k => k
                | None => EmptyString
                end)
          (value e) (isEmpty e).

(** An entry whose declaration the parser is followed through: no double
    quote and no carriage return in the id, a plain value. *)
Definition readable (wide : bool) (e : LabelEntry) : bool :=
  noQuote (toString (id e)) && noCR (toString (id e)) && plainValue wide e.

(** The entry with the line ends of its id normalised. *)
Definition normEntry (e : LabelEntry) : LabelEntry :=
  mkEntry (JStr (normalizeEOL (toString (id e)))) (value e) (isEmpty e).


End Markup.

(** ** Vocabulary of the selection *)

Module Selection.
Import Js Labels.

(** The first item of a table whose lower-cased value is the key. *)
Definition firstMatch (data : list LabelEntry) (key : Val) : option LabelEntry :=
  find (fun itm => match value itm with
                   | JStr v => strictEqStr (toLowerCase v) key
                   | _ => false
                   end) data.

(** What a key adds to the resolved list. *)
Definition picked (data : list LabelEntry) (key : Val) : list LabelEntry :=
  match firstMatch data key with
  | Some item => [item]
  | None => []
  end.

(** Every value of the table is a string. *)
Definition stringValued (data : list LabelEntry) : bool :=
  forallb (fun itm => match value itm with JStr _ => true | _ => false end) data.

End Selection.

(** ** Inputs used in examples *)

Module Samples.
Import Js Labels LabelSet.

Definition brandAndProduct : Config :=
  mkConfig true
    (Some [mkSnapshot "label" (Some "Brand") None;
           mkSnapshot "label" (Some "Product") None]).

Definition questionsAndAnswers : list LabelEntry :=
  [mkEntry (JNum 1) (JStr "Q&amp;A") false].

Definition mixedCase : list LabelEntry :=
  [mkEntry (JNum 1) (JStr "Air_Squat.Down") false;
   mkEntry (JNum 2) (JStr "Push Press") false].

(** Naive with a diaeresis (bytes 195 175), and an id with a reference and
    a tab. *)
Definition naive : string :=
  "Na" ++ String "195"%char (String "175"%char "ve").

Definition beyondAscii : list LabelEntry :=
  [mkEntry (JStr ("a&amp;" ++ String "009"%char "b")) (JStr naive) false;
   mkEntry (JNum 2) (JStr "Push Press") true].

(** Entries that pass the well-formedness test of the document and are not
    read back as written: a tab in a value, a double quote in a value, a
    double quote in an id. *)
Definition tabbed : list LabelEntry :=
  [mkEntry (JNum 1) (JStr ("a" ++ String "009"%char "b")) false].

Definition quotedValue : list LabelEntry :=
  [mkEntry (JNum 1) (JStr ("x" ++ dq ++ " alias=" ++ dq ++ "y")) false].

Definition quotedId : list LabelEntry :=
  [mkEntry (JStr ("1" ++ dq ++ " value=" ++ dq ++ "zzz" ++ dq ++ "/><Label key="
                  ++ dq ++ "2"))
           (JStr "a") false].

(** One entry whose value closes its declaration and opens another. *)
Definition twoInOne : list LabelEntry :=
  [mkEntry (JNum 1)
           (JStr ("x" ++ dq ++ "/><Label key=" ++ dq ++ "9" ++ dq ++ " value="
                  ++ dq ++ "y"))
           false].



Definition emptyLabelEntry : LabelEntry := mkEntry JUndefined JNull true.

Definition fetchedOptions : list LabelEntry := [mkEntry (JNum 1) (JStr "A") false].

Definition declaredStore : Store :=
  mkStore (getUpdatedRootConfig
             (getUpdatedConfigLbl [mkEntry (JNum 2) (JStr "air_squat.up") false]))
          [] [] false (Some EmptyString).

End Samples.

(** ** The earlier revision of the component (src/unnamed/part_000)

    The file differs from Labels.js in its table, in the effect, which has
    no branch for an empty [labelsData], and in the Apply selection handler,
    which saves nothing.  The template of the fragment, the select options
    and the other handlers are the same text and are shared. *)

Module Part000.
Import Js Eff Labels.

(** Lines 183-193. *)
Definition dummyData : list LabelEntry :=
  [ mkEntry (JNum 1) (JStr "pull-up") false;
    mkEntry (JNum 2) (JStr "push up") false;
    mkEntry (JNum 3) (JStr "push down") false;
    mkEntry (JNum 4) (JStr "deadlift-up") false;
    mkEntry (JNum 5) (JStr "deadlift-down") false;
    mkEntry (JNum 6) (JStr "benchpress-up") false;
    mkEntry (JNum 7) (JStr "benchpress-down") false;
    mkEntry (JNum 9) (JStr "frontsquat-up") false;
    mkEntry (JNum 10) (JStr "frontsquat-down") false ].

(** Lines 211-216. *)
Definition labelsEffect (labelsData : list LabelEntry) (c : Component) : Run Component :=
  if 0 <? length labelsData then
    emit (ReAssignConfigLbl (getUpdatedConfigLbl labelsData)) ;;; ret c
  else ret c.

(** Lines 202-203 and 211-216, the first render and its effect. *)
Definition mount (labelsData : list LabelEntry) : Run Component :=
  sel <- lift (initialSelection labelsData) ;;
  labelsEffect labelsData (mkComponent false sel).

(** Lines 228-237. *)
Definition handleApplySelection (c : Component) : Run Component :=
  labels <- lift (resolveSelection dummyData (labelsSelection c)) ;;
  emit (AddLabel labels) ;;;
  ret (setOpenLblSelection false c).

(** Line 268, the options of the select. *)
Definition selectOptions : Completion (list SelectOption) :=
  getLabelSelectOptions dummyData.

End Part000.

(** ** Vocabulary of the further properties *)

Module More.
Import Js Xml Eff Labels LabelSet Markup Selection.

(** The declarations that come before another one in the joined text, each
    followed by its comma. *)
Fixpoint joinPrefix (l : list string) : string :=
  match l with
  | [] => EmptyString
  | x :: r => x ++ "," ++ joinPrefix r
  end.

(** The start tag of the fragment with the indentation after it. *)
Definition fragmentHead : string :=
  "<Labels name=" ++ quoted "tricks" ++ " toName=" ++ quoted "audio"
  ++ " choice=" ++ quoted "multiple" ++ ">" ++ indent8.

(** The select option made from an item. *)
Definition optionOf (item : LabelEntry) : SelectOption :=
  mkSelectOption (id item) (toLowerCase (valueOf item)) (value item).

(** The key under which the select offers an item. *)
Definition keyOf (item : LabelEntry) : Val := JStr (toLowerCase (valueOf item)).

(** The string keys of a selection that match an item of the table. *)
Definition matchedKeys (data : list LabelEntry) (sel : list Val) : list string :=
  flat_map (fun key => match key, firstMatch data key with
                       | JStr k, Some _ => [k]
                       | _, _ => []
                       end) sel.

(** A value on which reading a property throws. *)
Definition nullish (v : Val) : bool :=
  match v with
  | JNull | JUndefined => true
  | _ => false
  end.

Definition isString (v : Val) : bool :=
  match v with
  | JStr _ => true
  | _ => false
  end.

(** What a child shows of its declaration. *)
Definition shape (c : Child) : Snapshot :=
  mkSnapshot (c_type c) (c_value c) (c_background c).

(** The events that only touch the display of the configuration: a line on
    the console, a fetch of the options, a re-assigned fragment. *)
Definition harmless (e : Labels.Event) : bool :=
  match e with
  | ConsoleError _ | FetchLabelOptions | ReAssignConfigLbl _ => true
  | SaveNewConfig _ | AddLabel _ => false
  end.

End More.

(** ** The parser on generated markup *)

Section ParserLemmas.
Import Js Xml Eff Labels Markup.

Lemma append_assoc' (a b c : string) : (a ++ b) ++ c = a ++ (b ++ c).
Proof. induction a as [|x a IH]; simpl; [reflexivity | now rewrite IH]. Qed.

Lemma append_nil_r (a : string) : a ++ EmptyString = a.
Proof. induction a as [|x a IH]; simpl; [reflexivity | now rewrite IH]. Qed.

(** Line ends. *)
Lemma normalizeEOL_app (a b : string) :
  noCR a = true -> normalizeEOL (a ++ b) = a ++ normalizeEOL b.
Proof.
  induction a as [|c a IH]; cbn [noCR]; intros H; [reflexivity|].
  apply andb_true_iff in H as [Hc Ha]. apply negb_true_iff in Hc.
  change (String c a ++ b) with (String c (a ++ b)).
  cbn [normalizeEOL]. rewrite Hc. now rewrite IH.
Qed.

Lemma noCR_app (a b : string) : noCR (a ++ b) = noCR a && noCR b.
Proof.
  induction a as [|c a IH]; cbn [noCR append]; [reflexivity|].
  now rewrite IH, andb_assoc.
Qed.

Lemma normalizeEOL_noCR (a : string) : noCR a = true -> normalizeEOL a = a.
Proof.
  intros H. rewrite <- (append_nil_r a) at 1.
  rewrite normalizeEOL_app by exact H. now rewrite append_nil_r.
Qed.

(** The characters that are not XML characters. *)
Lemma noNonChar_tail c s : noNonChar (String c s) = true -> noNonChar s = true.
Proof. cbn [noNonChar]. intros H. now apply andb_true_iff in H as [_ H]. Qed.

Lemma noNonChar_suffix (v s : string) : noNonChar (v ++ s) = true -> noNonChar s = true.
Proof.
  induction v as [|a v IH]; [trivial|].
  cbn [append]. intros H. apply IH. exact (noNonChar_tail _ _ H).
Qed.

Lemma endsEFBF_split v :
  endsEFBF v = true ->
  exists u a b, v = u ++ String a (String b EmptyString)
                /\ nat_of_ascii a = 239 /\ nat_of_ascii b = 191.
Proof.
  induction v as [|a v IH]; [discriminate|].
  cbn [endsEFBF]. destruct v as [|b [|c w]].
  - discriminate.
  - intros H. apply andb_true_iff in H as [Ha Hb].
    apply Nat.eqb_eq in Ha, Hb. now exists EmptyString, a, b.
  - intros H. destruct (IH H) as (u & x & y & E & Hx & Hy).
    exists (String a u), x, y. cbn [append]. now rewrite E.
Qed.

Lemma noNonChar_isNonCharEnd v c s :
  noNonChar (v ++ String c s) = true -> isNonCharEnd v c = false.
Proof.
  intros H. unfold isNonCharEnd.
  destruct (endsEFBF v) eqn:E; [|reflexivity].
  destruct (endsEFBF_split v E) as (u & a & b & -> & Ha & Hb).
  rewrite append_assoc' in H. apply noNonChar_suffix in H.
  cbn [append noNonChar] in H. apply andb_true_iff in H as [H _].
  rewrite Ha, Hb in H. cbn in H. cbn.
  now destruct ((nat_of_ascii c =? 190) || (nat_of_ascii c =? 191)).
Qed.

(** Plain text of the ASCII range is plain whatever the parser takes. *)
Lemma plainChar_with wide c : plainChar c = true -> plainCharWith wide c = true.
Proof. unfold plainChar, plainCharWith. now destruct (classify c). Qed.

Lemma plainChar_not239 c : plainChar c = true -> (nat_of_ascii c =? 239) = false.
Proof.
  intros H. destruct (nat_of_ascii c =? 239) eqn:E; [|reflexivity].
  apply Nat.eqb_eq in E. unfold plainChar, classify in H. rewrite E in H.
  discriminate.
Qed.

Lemma plainChar_ascii c : plainChar c = true -> (nat_of_ascii c <? 128) = true.
Proof.
  unfold plainChar, classify. intros H.
  destruct (128 <=? nat_of_ascii c) eqn:E; [discriminate|].
  apply Nat.leb_gt in E. now apply Nat.ltb_lt.
Qed.

Lemma plainStr_wellEncoded s : plainStr s = true -> wellEncoded s = true.
Proof.
  unfold wellEncoded. induction s as [|c s IH]; [reflexivity|].
  cbn [plainStr wellEncodedFrom]. intros H.
  apply andb_true_iff in H as [Hc Hs].
  now rewrite (plainChar_ascii c Hc), IH.
Qed.

Lemma plainStr_plain wide s :
  plainStr s = true -> allPlain wide s && noNonChar s = true.
Proof.
  induction s as [|c s IH]; [reflexivity|].
  cbn [plainStr allPlain noNonChar]. intros H.
  apply andb_true_iff in H as [Hc Hs].
  apply IH in Hs. apply andb_true_iff in Hs as [Hp Hn].
  rewrite (plainChar_with wide c Hc), Hp, Hn, (plainChar_not239 c Hc).
  now destruct s as [|b [|d r]].
Qed.

Lemma plainStr_with wide s : plainStr s = true -> plainStrWith wide s = true.
Proof.
  intros H. unfold plainStrWith.
  now rewrite (plainStr_plain wide s H), (plainStr_wellEncoded s H).
Qed.

Lemma plainEntry_with wide e : plainEntry e = true -> plainEntryWith wide e = true.
Proof.
  unfold plainEntry, plainEntryWith. intros H.
  apply andb_true_iff in H as [Hi Hv].
  now rewrite (plainStr_with wide _ Hi), (plainStr_with wide _ Hv).
Qed.

Lemma plainEntries_with wide entries :
  forallb plainEntry entries = true -> forallb (plainEntryWith wide) entries = true.
Proof.
  induction entries as [|e rest IH]; [reflexivity|].
  cbn [forallb]. intros H. apply andb_true_iff in H as [He Hr].
  now rewrite (plainEntry_with wide e He), IH.
Qed.

Lemma plainCharWith_noCR wide c :
  plainCharWith wide c = true -> Ascii.eqb c "013"%char = false.
Proof.
  intros H. destruct (Ascii.eqb c "013"%char) eqn:E; [|reflexivity].
  apply Ascii.eqb_eq in E. subst c. discriminate.
Qed.

Lemma allPlain_noCR wide (s : string) : allPlain wide s = true -> noCR s = true.
Proof.
  induction s as [|c s IH]; cbn [allPlain noCR]; intros H; [reflexivity|].
  apply andb_true_iff in H as [Hc Hs].
  now rewrite (plainCharWith_noCR wide c Hc), IH.
Qed.

Lemma plainStrWith_noCR wide (s : string) : plainStrWith wide s = true -> noCR s = true.
Proof.
  unfold plainStrWith. intros H. apply andb_true_iff in H as [H _].
  apply andb_true_iff in H as [H _].
  exact (allPlain_noCR wide s H).
Qed.

(** Only the double quote is of its class. *)
Lemma classify_dq c : classify c = CDQuote -> c = "034"%char.
Proof.
  destruct c as [[] [] [] [] [] [] [] []]; intros H;
    try reflexivity; vm_compute in H; discriminate.
Qed.

(** A reference leaves the model only while the model is confined to
    ASCII. *)
Lemma resolve_beyond w ref : resolve w ref = BeyondAscii -> w = false.
Proof.
  destruct w; [|reflexivity]. unfold resolve, charRef, entityRef.
  destruct ref as [|c body]; [now destruct (predefined _)|].
  destruct (Ascii.eqb c "#"%char); [|now destruct (predefined _)].
  destruct (codePoint body) as [cp|]; [|discriminate].
  rewrite orb_true_r. now destruct (xmlChar cp).
Qed.

Variables wide keep : bool.

Lemma run_app (a b : string) : forall st,
  runWith wide st (a ++ b) = runWith wide (runWith wide st a) b.
Proof. induction a as [|x a IH]; intros st; simpl; [reflexivity | apply IH]. Qed.

Lemma run_NotWellFormed (s : string) : runWith wide NotWellFormed s = NotWellFormed.
Proof. induction s; simpl; auto. Qed.

Lemma run_Unmodelled (s : string) : runWith wide Unmodelled s = Unmodelled.
Proof. induction s; simpl; auto. Qed.

(** A plain character inside a double-quoted value is appended to it. *)
Lemma step_plain tag attrs an v stack root c :
  plainCharWith wide c = true -> isNonCharEnd v c = false ->
  stepWith wide (Going (InValue tag attrs an CDQuote v) stack root) c
  = Going (InValue tag attrs an CDQuote (snoc v c)) stack root.
Proof.
  unfold plainCharWith, stepWith. intros H N.
  destruct (classify c) eqn:K; try discriminate; simpl; try reflexivity.
  - subst wide. now rewrite N.
  - apply Ascii.eqb_eq in H. now subst c.
Qed.

Lemma run_plain_from (s : string) : forall tag attrs an v stack root,
  allPlain wide s = true -> noNonChar (v ++ s) = true ->
  runWith wide (Going (InValue tag attrs an CDQuote v) stack root) s
  = Going (InValue tag attrs an CDQuote (v ++ s)) stack root.
Proof.
  induction s as [|c s IH]; intros tag attrs an v stack root H N;
    cbn [runWith allPlain] in *.
  - now rewrite append_nil_r.
  - apply andb_true_iff in H as [Hc Hs].
    rewrite step_plain by (exact Hc || exact (noNonChar_isNonCharEnd v c s N)).
    rewrite IH; unfold snoc; rewrite ?append_assoc'; auto.
Qed.

Lemma run_plain (s : string) tag attrs an stack root :
  plainStrWith wide s = true ->
  runWith wide (Going (InValue tag attrs an CDQuote EmptyString) stack root) s
  = Going (InValue tag attrs an CDQuote s) stack root.
Proof.
  unfold plainStrWith. intros H. apply andb_true_iff in H as [H _].
  apply andb_true_iff in H as [Hp Hn].
  now apply (run_plain_from s tag attrs an EmptyString).
Qed.

(** The three fixed stretches of a child declaration. *)
Lemma run_decl_open txt f stack root :
  runWith wide (Going (Content txt) (f :: stack) root) ("<Label key=" ++ dq)
  = Going (InValue "Label" [] "key" CDQuote EmptyString)
          (flushText txt (f :: stack)) root.
Proof. reflexivity. Qed.

Lemma run_decl_middle k stack root :
  runWith wide (Going (InValue "Label" [] "key" CDQuote k) stack root)
      (dq ++ " value=" ++ dq)
  = Going (InValue "Label" [mkAttr "key" k] "value" CDQuote EmptyString) stack root.
Proof. reflexivity. Qed.

Lemma run_decl_close k v stack root :
  runWith wide (Going (InValue "Label" [mkAttr "key" k] "value" CDQuote v) stack root)
      (dq ++ "/>")
  = complete (Element "Label" [mkAttr "key" k; mkAttr "value" v] []) stack root.
Proof. reflexivity. Qed.

Lemma complete_flush n txt f stack root :
  complete n (flushText txt (f :: stack)) root
  = Going (Content EmptyString) (addKids f (textNode txt ++ [n]) :: stack) root.
Proof.
  cbn [flushText complete addKids f_tag f_attrs f_kids].
  now rewrite <- app_assoc.
Qed.

Lemma labelDecl_eq (e : LabelEntry) :
  labelDecl e
  = ("<Label key=" ++ dq) ++ toString (id e) ++ (dq ++ " value=" ++ dq)
    ++ toString (value e) ++ (dq ++ "/>").
Proof.
  unfold labelDecl, quoted. now rewrite !append_assoc'.
Qed.

(** A child declaration with plain id and value adds its element to the
    open element, after the text that was pending. *)
Lemma run_decl e txt f stack root :
  plainEntryWith wide e = true ->
  runWith wide (Going (Content txt) (f :: stack) root) (labelDecl e)
  = Going (Content EmptyString)
          (addKids f (textNode txt ++ [declNode e]) :: stack) root.
Proof.
  unfold plainEntryWith. intros H. apply andb_true_iff in H as [Hi Hv].
  rewrite labelDecl_eq.
  rewrite run_app, run_decl_open.
  rewrite run_app, run_plain by exact Hi.
  rewrite run_app, run_decl_middle.
  rewrite run_app, run_plain by exact Hv.
  rewrite run_decl_close.
  apply complete_flush.
Qed.

(** The declarations joined by commas. *)
Lemma addKids_addKids f a b : addKids (addKids f a) b = addKids f (a ++ b).
Proof. unfold addKids; cbn. now rewrite app_assoc. Qed.

Lemma run_comma st root rest :
  runWith wide (Going (Content EmptyString) st root) ("," ++ rest)
  = runWith wide (Going (Content ",") st root) rest.
Proof. reflexivity. Qed.

Lemma run_joined (entries : list LabelEntry) : forall txt f stack root,
  forallb (plainEntryWith wide) entries = true ->
  entries <> [] ->
  runWith wide (Going (Content txt) (f :: stack) root) (joinComma (map labelDecl entries))
  = Going (Content EmptyString)
          (addKids f (textNode txt ++ joinedNodes entries) :: stack) root.
Proof.
  induction entries as [|e rest IH]; intros txt f stack root H Hne; [congruence|].
  cbn [forallb] in H. apply andb_true_iff in H as [He Hrest].
  destruct rest as [|e2 rest].
  - cbn [map joinComma joinedNodes]. now apply run_decl.
  - change (joinComma (map labelDecl (e :: e2 :: rest)))
      with (labelDecl e ++ "," ++ joinComma (map labelDecl (e2 :: rest))).
    rewrite run_app, run_decl by exact He.
    rewrite run_comma.
    rewrite IH by (exact Hrest || discriminate).
    rewrite addKids_addKids. cbn [textNode].
    change (joinedNodes (e :: e2 :: rest))
      with (declNode e :: Text "," :: joinedNodes (e2 :: rest)).
    do 3 f_equal. now rewrite <- app_assoc.
Qed.

Lemma fragment_split entries :
  getUpdatedConfigLbl entries = String "<"%char (String "L"%char (fragmentTail entries)).
Proof. reflexivity. Qed.

Lemma run_fragment_head stack root :
  runWith wide (Going (OpenName "L") stack root)
      ("abels name=" ++ quoted "tricks" ++ " toName=" ++ quoted "audio"
       ++ " choice=" ++ quoted "multiple" ++ ">" ++ indent8)
  = Going (Content indent8) (mkFrame "Labels" labelsAttrs [] :: stack) root.
Proof. reflexivity. Qed.

Lemma run_fragment_end txt kids stack root :
  (txt = EmptyString \/ txt = indent8) ->
  runWith wide (Going (Content txt) (mkFrame "Labels" labelsAttrs kids :: stack) root)
      (indent6 ++ "</Labels>")
  = complete (Element "Labels" labelsAttrs (kids ++ [Text (txt ++ indent6)])) stack root.
Proof. intros [-> | ->]; reflexivity. Qed.

Lemma run_fragmentTail entries stack root :
  forallb (plainEntryWith wide) entries = true ->
  runWith wide (Going (OpenName "L") stack root) (fragmentTail entries)
  = complete (labelsElement entries) stack root.
Proof.
  intros H. unfold fragmentTail.
  change ("abels name=" ++ quoted "tricks" ++ " toName=" ++ quoted "audio"
          ++ " choice=" ++ quoted "multiple" ++ ">" ++ indent8
          ++ joinComma (map labelDecl entries) ++ indent6 ++ "</Labels>")
    with (("abels name=" ++ quoted "tricks" ++ " toName=" ++ quoted "audio"
           ++ " choice=" ++ quoted "multiple" ++ ">" ++ indent8)
          ++ joinComma (map labelDecl entries) ++ (indent6 ++ "</Labels>")).
  rewrite run_app, run_fragment_head, run_app.
  destruct entries as [|e rest].
  - cbn [map joinComma runWith]. rewrite run_fragment_end by now right. reflexivity.
  - rewrite run_joined by (exact H || discriminate).
    unfold addKids; cbn [f_tag f_attrs f_kids app].
    rewrite run_fragment_end by now left. reflexivity.
Qed.

(** Generated markup holds no carriage return. *)
Lemma noCR_labelDecl e : plainEntryWith wide e = true -> noCR (labelDecl e) = true.
Proof.
  unfold plainEntryWith. intros H. apply andb_true_iff in H as [Hi Hv].
  rewrite labelDecl_eq, !noCR_app.
  now rewrite (plainStrWith_noCR wide _ Hi), (plainStrWith_noCR wide _ Hv).
Qed.

Lemma noCR_joined entries :
  forallb (plainEntryWith wide) entries = true ->
  noCR (joinComma (map labelDecl entries)) = true.
Proof.
  induction entries as [|e rest IH]; intros H; [reflexivity|].
  cbn [forallb] in H. apply andb_true_iff in H as [He Hrest].
  destruct rest as [|e2 rest].
  - cbn [map joinComma]. now apply noCR_labelDecl.
  - change (joinComma (map labelDecl (e :: e2 :: rest)))
      with (labelDecl e ++ "," ++ joinComma (map labelDecl (e2 :: rest))).
    rewrite !noCR_app, (noCR_labelDecl e He), (IH Hrest). reflexivity.
Qed.

Lemma noCR_fragment entries :
  forallb (plainEntryWith wide) entries = true ->
  noCR (getUpdatedConfigLbl entries) = true.
Proof.
  intros H.
  change (getUpdatedConfigLbl entries)
    with (("<Labels name=" ++ quoted "tricks" ++ " toName=" ++ quoted "audio"
           ++ " choice=" ++ quoted "multiple" ++ ">" ++ indent8)
          ++ joinComma (map labelDecl entries) ++ (indent6 ++ "</Labels>")).
  rewrite !noCR_app, (noCR_joined entries H). reflexivity.
Qed.

Lemma rootConfig_split lblConfig :
  getUpdatedRootConfig lblConfig = skeletonBefore ++ lblConfig ++ skeletonAfter.
Proof. reflexivity. Qed.

Lemma run_skeletonBefore :
  runWith wide start skeletonBefore = Going (Content indent6) [viewFrame] None.
Proof. reflexivity. Qed.

Lemma run_skeletonAfter labels :
  runWith wide (Going (Content EmptyString)
             [addKids viewFrame (textNode indent6 ++ [labels])] None)
      skeletonAfter
  = Going Outside [] (Some (viewElement labels)).
Proof. reflexivity. Qed.

(** The fragment alone parses to the Labels element. *)
Lemma run_fragment entries :
  forallb (plainEntryWith wide) entries = true ->
  runWith wide start (normalizeEOL (getUpdatedConfigLbl entries))
  = Going Outside [] (Some (labelsElement entries)).
Proof.
  intros H.
  rewrite normalizeEOL_noCR by now apply noCR_fragment.
  rewrite fragment_split. cbn [runWith].
  change (stepWith wide (stepWith wide start "<"%char) "L"%char)
    with (Going (OpenName "L") [] None).
  rewrite run_fragmentTail by exact H. reflexivity.
Qed.

Lemma parse_fragment_with entries :
  forallb (plainEntryWith wide) entries = true ->
  parseFromStringWith wide keep (getUpdatedConfigLbl entries)
  = Some (mkDocument [labelsElement entries]).
Proof.
  intros H. unfold parseFromStringWith. now rewrite run_fragment.
Qed.

(** The document around the fragment parses to the View element, with the
    Labels element as its sixth child. *)
Lemma run_document entries :
  forallb (plainEntryWith wide) entries = true ->
  runWith wide start (normalizeEOL (getUpdatedRootConfig (getUpdatedConfigLbl entries)))
  = Going Outside [] (Some (viewElement (labelsElement entries))).
Proof.
  intros H.
  rewrite rootConfig_split.
  rewrite normalizeEOL_noCR.
  2:{ rewrite !noCR_app, (noCR_fragment entries H). reflexivity. }
  rewrite run_app, run_skeletonBefore, run_app.
  rewrite fragment_split. cbn [runWith].
  change (stepWith wide (stepWith wide (Going (Content indent6) [viewFrame] None)
                                  "<"%char) "L"%char)
    with (Going (OpenName "L") (flushText indent6 [viewFrame]) None).
  rewrite run_fragmentTail by exact H.
  change (complete (labelsElement entries) (flushText indent6 [viewFrame]) None)
    with (Going (Content EmptyString)
                [addKids viewFrame (textNode indent6 ++ [labelsElement entries])] None).
  now rewrite run_skeletonAfter.
Qed.

Lemma parse_document_with entries :
  forallb (plainEntryWith wide) entries = true ->
  parseFromStringWith wide keep (getUpdatedRootConfig (getUpdatedConfigLbl entries))
  = Some (mkDocument [viewElement (labelsElement entries)]).
Proof.
  intros H. unfold parseFromStringWith. now rewrite run_document.
Qed.

(** *** Ids that are not plain *)

Lemma run_dead st s : dead st = true -> runWith wide st s = st.
Proof.
  destruct st; [discriminate | |]; intros _;
    [apply run_NotWellFormed | apply run_Unmodelled].
Qed.

Lemma run_stopped st s : stopped wide st = true -> runWith wide st s = st.
Proof.
  intros H. apply run_dead. now destruct st.
Qed.

Lemma step_reframe tag attrs an stack root st c :
  inValueDQ st = true -> Ascii.eqb c "034"%char = false ->
  stepWith wide (reframe tag attrs an stack root st) c
  = reframe tag attrs an stack root (stepWith wide st c)
  /\ inValueDQ (stepWith wide st c) || stopped wide (stepWith wide st c) = true.
Proof.
  intros Hs Hc.
  assert (K : classify c <> CDQuote).
  { intros K. apply classify_dq in K. subst c. discriminate. }
  destruct st as [m stk rt| |]; try discriminate.
  destruct m; try discriminate; destruct q; try discriminate;
    unfold stepWith; cbn [reframe];
    destruct (classify c); try congruence; cbn;
    repeat match goal with
           | |- context [resolve wide ?r] =>
               let R := fresh "R" in
               destruct (resolve wide r) eqn:R;
               [| |apply resolve_beyond in R; rewrite R]; cbn
           | |- context [if ?b then _ else _] => destruct b; cbn
           | |- context [match ?x with _ => _ end] => destruct x; cbn
           end;
    split; reflexivity.
Qed.

Lemma run_reframe tag attrs an stack root s : forall st,
  noQuote s = true -> inValueDQ st || stopped wide st = true ->
  runWith wide (reframe tag attrs an stack root st) s
  = reframe tag attrs an stack root (runWith wide st s)
  /\ inValueDQ (runWith wide st s) || stopped wide (runWith wide st s) = true.
Proof.
  induction s as [|c s IH]; intros st Hq Hst; [now split|].
  cbn [noQuote] in Hq. apply andb_true_iff in Hq as [Hc Hs].
  apply negb_true_iff in Hc. cbn [runWith].
  destruct (inValueDQ st) eqn:Hi.
  - destruct (step_reframe tag attrs an stack root st c Hi Hc) as [E I].
    rewrite E. now apply IH.
  - cbn in Hst. destruct st as [m stk rt| |]; try discriminate; cbn [stepWith reframe].
    + rewrite !run_NotWellFormed. now split.
    + rewrite !run_Unmodelled. now split.
Qed.

(** The text of a key and its closing quote, in any start tag. *)
Lemma run_key s stack root :
  noQuote s = true -> noCR s = true ->
  (forall k, readKey wide s = Some k ->
     runWith wide (Going (InValue "Label" [] "key" CDQuote EmptyString) stack root)
             (s ++ dq)
     = Going (AfterValue "Label" [mkAttr "key" k]) stack root)
  /\ (readKey wide s = None ->
      stopped wide (runWith wide
              (Going (InValue "Label" [] "key" CDQuote EmptyString) stack root)
              (s ++ dq)) = true).
Proof.
  intros Hq Hn. unfold readKey. rewrite (normalizeEOL_noCR s Hn).
  rewrite run_app.
  change (Going (InValue "Label" [] "key" CDQuote EmptyString) stack root)
    with (reframe "Label" [] "key" stack root (inKey EmptyString)).
  destruct (run_reframe "Label" [] "key" stack root s (inKey EmptyString) Hq eq_refl)
    as [E I].
  rewrite E. clear E.
  destruct (runWith wide (inKey EmptyString) s) as [m stk rt| |];
    [|split; [discriminate | reflexivity]
     |split; [discriminate | intros _; cbn [reframe]; now rewrite run_Unmodelled]].
  destruct m; try discriminate; destruct q; try discriminate; cbn [reframe].
  - split; [intros k [= <-]; reflexivity | discriminate].
  - split; [discriminate | reflexivity].
Qed.

Lemma run_decl_value k stack root :
  runWith wide (Going (AfterValue "Label" [mkAttr "key" k]) stack root)
          (" value=" ++ dq)
  = Going (InValue "Label" [mkAttr "key" k] "value" CDQuote EmptyString) stack root.
Proof. reflexivity. Qed.

Lemma labelDecl_eq' (e : LabelEntry) :
  labelDecl e
  = ("<Label key=" ++ dq) ++ (toString (id e) ++ dq) ++ (" value=" ++ dq)
    ++ toString (value e) ++ (dq ++ "/>").
Proof.
  unfold labelDecl, quoted. now rewrite !append_assoc'.
Qed.

Lemma declNode_readEntry e k :
  readKey wide (toString (id e)) = Some k ->
  declNode (readEntry wide e)
  = Element "Label" [mkAttr "key" k; mkAttr "value" (toString (value e))] [].
Proof. intros H. unfold declNode, readEntry. cbn. now rewrite H. Qed.

(** A child declaration whose id holds no double quote and whose value is
    plain adds its element, under the key that is read, or stops the
    parser. *)
Lemma run_decl_read e txt f stack root :
  noQuote (toString (id e)) = true -> noCR (toString (id e)) = true ->
  plainValue wide e = true ->
  (keyRead wide e = true ->
   runWith wide (Going (Content txt) (f :: stack) root) (labelDecl e)
   = Going (Content EmptyString)
           (addKids f (textNode txt ++ [declNode (readEntry wide e)]) :: stack) root)
  /\ (keyRead wide e = false ->
      stopped wide
        (runWith wide (Going (Content txt) (f :: stack) root) (labelDecl e))
      = true).
Proof.
  intros Hq Hn Hv. unfold keyRead.
  rewrite labelDecl_eq', run_app, run_decl_open, run_app.
  destruct (run_key (toString (id e)) (flushText txt (f :: stack)) root Hq Hn)
    as [Hsome Hnone].
  destruct (readKey wide (toString (id e))) as [k|] eqn:Hk.
  - split; [intros _ | discriminate].
    rewrite (Hsome k eq_refl).
    rewrite run_app, run_decl_value.
    rewrite run_app, run_plain by exact Hv.
    rewrite run_decl_close, (declNode_readEntry e k Hk).
    apply complete_flush.
  - split; [discriminate | intros _].
    specialize (Hnone eq_refl).
    now rewrite (run_stopped _ _ Hnone).
Qed.

Lemma run_joined_read (entries : list LabelEntry) : forall txt f stack root,
  forallb (readable wide) entries = true ->
  entries <> [] ->
  (forallb (keyRead wide) entries = true ->
   runWith wide (Going (Content txt) (f :: stack) root)
           (joinComma (map labelDecl entries))
   = Going (Content EmptyString)
           (addKids f (textNode txt ++ joinedNodes (map (readEntry wide) entries))
            :: stack) root)
  /\ (forallb (keyRead wide) entries = false ->
      stopped wide (runWith wide (Going (Content txt) (f :: stack) root)
                    (joinComma (map labelDecl entries))) = true).
Proof.
  induction entries as [|e rest IH]; intros txt f stack root H Hne; [congruence|].
  cbn [forallb] in H. apply andb_true_iff in H as [He Hrest].
  unfold readable in He. apply andb_true_iff in He as [He Hv].
  apply andb_true_iff in He as [Hq Hn].
  destruct (run_decl_read e txt f stack root Hq Hn Hv) as [Hgood Hbad].
  destruct rest as [|e2 rest].
  - cbn [map joinComma joinedNodes forallb]. rewrite andb_true_r.
    split; assumption.
  - change (joinComma (map labelDecl (e :: e2 :: rest)))
      with (labelDecl e ++ "," ++ joinComma (map labelDecl (e2 :: rest))).
    rewrite run_app.
    change (forallb (keyRead wide) (e :: e2 :: rest))
      with (keyRead wide e && forallb (keyRead wide) (e2 :: rest)).
    destruct (keyRead wide e).
    + rewrite (Hgood eq_refl), run_comma. cbn [andb].
      destruct (IH "," (addKids f (textNode txt ++ [declNode (readEntry wide e)]))
                   stack root Hrest ltac:(discriminate)) as [IHgood IHbad].
      split; [|exact IHbad].
      intros Hk. rewrite (IHgood Hk).
      rewrite addKids_addKids. cbn [textNode].
      change (joinedNodes (map (readEntry wide) (e :: e2 :: rest)))
        with (declNode (readEntry wide e) :: Text ","
              :: joinedNodes (map (readEntry wide) (e2 :: rest))).
      do 3 f_equal. now rewrite <- app_assoc.
    + split; [discriminate | intros _].
      pose proof (Hbad eq_refl) as Hd. now rewrite (run_stopped _ _ Hd).
Qed.

Lemma run_fragmentTail_read entries stack root :
  forallb (readable wide) entries = true ->
  (forallb (keyRead wide) entries = true ->
   runWith wide (Going (OpenName "L") stack root) (fragmentTail entries)
   = complete (labelsElement (map (readEntry wide) entries)) stack root)
  /\ (forallb (keyRead wide) entries = false ->
      stopped wide (runWith wide (Going (OpenName "L") stack root) (fragmentTail entries))
      = true).
Proof.
  intros H. unfold fragmentTail.
  change ("abels name=" ++ quoted "tricks" ++ " toName=" ++ quoted "audio"
          ++ " choice=" ++ quoted "multiple" ++ ">" ++ indent8
          ++ joinComma (map labelDecl entries) ++ indent6 ++ "</Labels>")
    with (("abels name=" ++ quoted "tricks" ++ " toName=" ++ quoted "audio"
           ++ " choice=" ++ quoted "multiple" ++ ">" ++ indent8)
          ++ joinComma (map labelDecl entries) ++ (indent6 ++ "</Labels>")).
  rewrite run_app, run_fragment_head, run_app.
  destruct entries as [|e rest].
  - split; [intros _ | discriminate].
    cbn [map joinComma runWith]. rewrite run_fragment_end by now right. reflexivity.
  - destruct (run_joined_read (e :: rest) indent8 (mkFrame "Labels" labelsAttrs [])
                stack root H ltac:(discriminate)) as [Hgood Hbad].
    split; intros Hk.
    + rewrite (Hgood Hk).
      unfold addKids; cbn [f_tag f_attrs f_kids app].
      rewrite run_fragment_end by now left. reflexivity.
    + pose proof (Hbad Hk) as Hd. now rewrite (run_stopped _ _ Hd).
Qed.

Lemma plainValue_noCR e : plainValue wide e = true -> noCR (toString (value e)) = true.
Proof. apply plainStrWith_noCR. Qed.

Lemma noCR_labelDecl_read e : readable wide e = true -> noCR (labelDecl e) = true.
Proof.
  unfold readable. intros H. apply andb_true_iff in H as [H Hv].
  apply andb_true_iff in H as [_ Hn].
  rewrite labelDecl_eq, !noCR_app, Hn, (plainValue_noCR e Hv). reflexivity.
Qed.

Lemma noCR_joined_read entries :
  forallb (readable wide) entries = true ->
  noCR (joinComma (map labelDecl entries)) = true.
Proof.
  induction entries as [|e rest IH]; intros H; [reflexivity|].
  cbn [forallb] in H. apply andb_true_iff in H as [He Hrest].
  destruct rest as [|e2 rest].
  - cbn [map joinComma]. now apply noCR_labelDecl_read.
  - change (joinComma (map labelDecl (e :: e2 :: rest)))
      with (labelDecl e ++ "," ++ joinComma (map labelDecl (e2 :: rest))).
    rewrite !noCR_app, (noCR_labelDecl_read e He), (IH Hrest). reflexivity.
Qed.

(** The document around the fragment, for ids without carriage return. *)
Lemma run_document_read entries :
  forallb (readable wide) entries = true ->
  (forallb (keyRead wide) entries = true ->
   runWith wide start (getUpdatedRootConfig (getUpdatedConfigLbl entries))
   = Going Outside [] (Some (viewElement (labelsElement (map (readEntry wide) entries)))))
  /\ (forallb (keyRead wide) entries = false ->
      stopped wide (runWith wide start (getUpdatedRootConfig (getUpdatedConfigLbl entries)))
      = true).
Proof.
  intros H.
  rewrite rootConfig_split.
  rewrite run_app, run_skeletonBefore, run_app.
  rewrite fragment_split. cbn [runWith].
  change (stepWith wide (stepWith wide (Going (Content indent6) [viewFrame] None)
                                  "<"%char) "L"%char)
    with (Going (OpenName "L") (flushText indent6 [viewFrame]) None).
  destruct (run_fragmentTail_read entries (flushText indent6 [viewFrame]) None H)
    as [Hgood Hbad].
  split; intros Hk.
  - rewrite (Hgood Hk).
    change (complete (labelsElement (map (readEntry wide) entries))
                     (flushText indent6 [viewFrame]) None)
      with (Going (Content EmptyString)
                  [addKids viewFrame
                     (textNode indent6 ++ [labelsElement (map (readEntry wide) entries)])]
                  None).
    now rewrite run_skeletonAfter.
  - pose proof (Hbad Hk) as Hd. now rewrite (run_stopped _ _ Hd).
Qed.

(** *** Carriage returns in ids *)

Lemma string_ind2 (P : string -> Prop) :
  P EmptyString ->
  (forall c, P (String c EmptyString)) ->
  (forall c d r, P r -> P (String d r) -> P (String c (String d r))) ->
  forall s, P s.
Proof.
  intros H0 H1 H2 s.
  assert (H : P s /\ forall c, P (String c s)).
  { induction s as [|d r [IHr IHd]]; split; auto. }
  exact (proj1 H).
Qed.

Lemma normalizeEOL_two x d r :
  normalizeEOL (String x (String d r))
  = if Ascii.eqb x "013"%char
    then if Ascii.eqb d "010"%char
         then String "010"%char (normalizeEOL r)
         else String "010"%char (normalizeEOL (String d r))
    else String x (normalizeEOL (String d r)).
Proof. reflexivity. Qed.

(** A character that is no line end separates what is normalised before it
    from what is normalised after it. *)
Lemma normalizeEOL_sep c b : forall a,
  Ascii.eqb c "013"%char = false -> Ascii.eqb c "010"%char = false ->
  normalizeEOL (a ++ String c b) = normalizeEOL a ++ String c (normalizeEOL b).
Proof.
  intros a Hc Hl. induction a as [|x|x d r IHr IHd] using string_ind2.
  - cbn [append normalizeEOL]. now rewrite Hc.
  - cbn [append normalizeEOL]. rewrite Hc, Hl.
    now destruct (Ascii.eqb x "013"%char).
  - change (String x (String d r) ++ String c b)
      with (String x (String d (r ++ String c b))).
    rewrite !normalizeEOL_two.
    change (String d (r ++ String c b)) with (String d r ++ String c b).
    destruct (Ascii.eqb x "013"%char).
    + destruct (Ascii.eqb d "010"%char).
      * now rewrite IHr.
      * now rewrite IHd.
    + now rewrite IHd.
Qed.

Lemma noCR_normalizeEOL s : noCR (normalizeEOL s) = true.
Proof.
  induction s as [|x|x d r IHr IHd] using string_ind2.
  - reflexivity.
  - cbn [normalizeEOL]. destruct (Ascii.eqb x "013"%char) eqn:E; cbn [noCR].
    + reflexivity.
    + now rewrite E.
  - rewrite normalizeEOL_two. destruct (Ascii.eqb x "013"%char) eqn:E.
    + destruct (Ascii.eqb d "010"%char); cbn [noCR];
        change (Ascii.eqb "010"%char "013"%char) with false; cbn [negb andb];
        [exact IHr | exact IHd].
    + cbn [noCR]. rewrite E. exact IHd.
Qed.

Lemma noQuote_normalizeEOL s : noQuote s = true -> noQuote (normalizeEOL s) = true.
Proof.
  induction s as [|x|x d r IHr IHd] using string_ind2.
  - reflexivity.
  - cbn [normalizeEOL noQuote]. now destruct (Ascii.eqb x "013"%char).
  - intros H.
    assert (Hx : negb (Ascii.eqb x "034"%char) = true /\ noQuote (String d r) = true).
    { cbn [noQuote] in H. apply andb_true_iff in H as [Hx H]. split; [exact Hx|].
      cbn [noQuote]. exact H. }
    destruct Hx as [Hx Hd].
    assert (Hr : noQuote r = true).
    { cbn [noQuote] in Hd. now apply andb_true_iff in Hd as [_ Hd]. }
    rewrite normalizeEOL_two. destruct (Ascii.eqb x "013"%char).
    + destruct (Ascii.eqb d "010"%char); cbn [noQuote];
        change (Ascii.eqb "010"%char "034"%char) with false; cbn [negb andb]; auto.
    + cbn [noQuote]. rewrite Hx. cbn [andb]. auto.
Qed.

Lemma normalizeEOL_idem s : normalizeEOL (normalizeEOL s) = normalizeEOL s.
Proof. apply normalizeEOL_noCR, noCR_normalizeEOL. Qed.

Lemma normalizeEOL_labelDecl e rest :
  noCR (toString (value e)) = true ->
  normalizeEOL (labelDecl e ++ rest) = labelDecl (normEntry e) ++ normalizeEOL rest.
Proof.
  intros Hv. rewrite !labelDecl_eq. cbn [normEntry id value toString].
  rewrite !append_assoc'.
  rewrite !normalizeEOL_app by reflexivity.
  change (toString (id e) ++ dq ++ ?X) with (toString (id e) ++ String "034"%char X).
  rewrite normalizeEOL_sep by reflexivity.
  rewrite !normalizeEOL_app by (reflexivity || exact Hv).
  reflexivity.
Qed.

Lemma normalizeEOL_joined entries : forall rest,
  forallb (plainValue wide) entries = true ->
  normalizeEOL (joinComma (map labelDecl entries) ++ rest)
  = joinComma (map labelDecl (map normEntry entries)) ++ normalizeEOL rest.
Proof.
  induction entries as [|e more IH]; intros rest H; [reflexivity|].
  cbn [forallb] in H. apply andb_true_iff in H as [He Hmore].
  apply plainValue_noCR in He.
  destruct more as [|e2 more].
  - cbn [map joinComma]. now apply normalizeEOL_labelDecl.
  - change (joinComma (map labelDecl (e :: e2 :: more)))
      with (labelDecl e ++ "," ++ joinComma (map labelDecl (e2 :: more))).
    change (joinComma (map labelDecl (map normEntry (e :: e2 :: more))))
      with (labelDecl (normEntry e) ++ ","
            ++ joinComma (map labelDecl (map normEntry (e2 :: more)))).
    rewrite !append_assoc'.
    rewrite normalizeEOL_labelDecl by exact He.
    rewrite normalizeEOL_app by reflexivity.
    now rewrite IH.
Qed.

Lemma normalizeEOL_document entries :
  forallb (plainValue wide) entries = true ->
  normalizeEOL (getUpdatedRootConfig (getUpdatedConfigLbl entries))
  = getUpdatedRootConfig (getUpdatedConfigLbl (map normEntry entries)).
Proof.
  intros H. rewrite !rootConfig_split.
  pose (h := "<Labels name=" ++ quoted "tricks" ++ " toName=" ++ quoted "audio"
             ++ " choice=" ++ quoted "multiple" ++ ">" ++ indent8).
  pose (t := indent6 ++ "</Labels>").
  change (getUpdatedConfigLbl entries)
    with (h ++ joinComma (map labelDecl entries) ++ t).
  change (getUpdatedConfigLbl (map normEntry entries))
    with (h ++ joinComma (map labelDecl (map normEntry entries)) ++ t).
  rewrite !append_assoc'.
  rewrite (normalizeEOL_app skeletonBefore) by reflexivity.
  rewrite (normalizeEOL_app h) by reflexivity.
  rewrite normalizeEOL_joined by exact H.
  rewrite (normalizeEOL_noCR (t ++ skeletonAfter)) by reflexivity.
  reflexivity.
Qed.

Lemma readKey_norm s : readKey wide (normalizeEOL s) = readKey wide s.
Proof. unfold readKey. now rewrite normalizeEOL_idem. Qed.

Lemma readEntry_norm e : readEntry wide (normEntry e) = readEntry wide e.
Proof.
  unfold readEntry. cbn [normEntry id value isEmpty toString].
  now rewrite readKey_norm.
Qed.

Lemma keyRead_norm e : keyRead wide (normEntry e) = keyRead wide e.
Proof.
  unfold keyRead. cbn [normEntry id toString]. now rewrite readKey_norm.
Qed.

Lemma keysRead_norm entries :
  forallb (keyRead wide) (map normEntry entries) = forallb (keyRead wide) entries.
Proof.
  induction entries as [|e rest IH]; [reflexivity|].
  cbn [map forallb]. now rewrite keyRead_norm, IH.
Qed.

Lemma readable_norm entries :
  forallb quoteFreeId entries = true ->
  forallb (plainValue wide) entries = true ->
  forallb (readable wide) (map normEntry entries) = true.
Proof.
  induction entries as [|e rest IH]; [reflexivity|].
  cbn [forallb map]. intros Hq Hv.
  apply andb_true_iff in Hq as [Hq Hqs]. apply andb_true_iff in Hv as [Hv Hvs].
  rewrite (IH Hqs Hvs), andb_true_r.
  unfold readable, plainValue. cbn [normEntry id value toString].
  unfold quoteFreeId in Hq. apply andb_true_iff in Hq as [Hq _].
  unfold plainValue in Hv.
  now rewrite (noQuote_normalizeEOL _ Hq), noCR_normalizeEOL, Hv.
Qed.

(** The document made from entries whose ids hold no double quote and
    whose values are plain: the parser reads the tree of the entries, each
    under the key it reads, or it stops. *)
Lemma document_read entries :
  forallb quoteFreeId entries = true ->
  forallb (plainValue wide) entries = true ->
  (forallb (keyRead wide) entries = true ->
   runWith wide start
           (normalizeEOL (getUpdatedRootConfig (getUpdatedConfigLbl entries)))
   = Going Outside []
           (Some (viewElement (labelsElement (map (readEntry wide) entries)))))
  /\ (forallb (keyRead wide) entries = false ->
      stopped wide
        (runWith wide start
           (normalizeEOL (getUpdatedRootConfig (getUpdatedConfigLbl entries))))
      = true).
Proof.
  intros Hq Hv. rewrite (normalizeEOL_document entries Hv).
  destruct (run_document_read (map normEntry entries) (readable_norm entries Hq Hv))
    as [Hgood Hbad].
  rewrite keysRead_norm in Hgood, Hbad.
  rewrite map_map in Hgood.
  rewrite (map_ext (fun e => readEntry wide (normEntry e)) (readEntry wide)
             readEntry_norm) in Hgood.
  split; assumption.
Qed.

(** With [wide] on such a document is inside the subset modelled: it is
    well formed or it is not. *)
Lemma document_modelled entries :
  wide = true ->
  forallb quoteFreeId entries = true ->
  forallb (plainValue wide) entries = true ->
  wellFormedWith wide (getUpdatedRootConfig (getUpdatedConfigLbl entries)) <> None.
Proof.
  intros Hw Hq Hv. destruct (document_read entries Hq Hv) as [Hgood Hbad].
  unfold wellFormedWith.
  destruct (forallb (keyRead wide) entries).
  - now rewrite (Hgood eq_refl).
  - specialize (Hbad eq_refl).
    destruct (runWith wide start _) as [m stack root| |]; try discriminate.
    rewrite Hw in Hbad. discriminate Hbad.
Qed.

(** The values collected from the children of the Labels element. *)
Variable lower : string -> string.

Lemma collectValues_joined entries :
  collectValuesWith lower (joinedNodes entries) = map (fun e => lower (valueOf e)) entries.
Proof.
  induction entries as [|e rest IH]; [reflexivity|].
  destruct rest as [|e2 rest]; [reflexivity|].
  change (joinedNodes (e :: e2 :: rest))
    with (declNode e :: Text "," :: joinedNodes (e2 :: rest)).
  change (collectValuesWith lower (declNode e :: Text "," :: ?l))
    with (lower (valueOf e) :: collectValuesWith lower l).
  now rewrite IH.
Qed.

Lemma collectValues_app a b :
  collectValuesWith lower (a ++ b)
  = (collectValuesWith lower a ++ collectValuesWith lower b)%list.
Proof.
  induction a as [|n a IH]; [reflexivity|].
  cbn [app collectValuesWith].
  destruct (node_attributes n) as [attrs|]; [|exact IH].
  destruct (getNamedItem "value" attrs); [|exact IH].
  cbn [app]. now rewrite IH.
Qed.

Lemma collectValues_labelsKids entries :
  collectValuesWith lower (labelsKids entries)
  = map (fun e => lower (valueOf e)) entries.
Proof.
  destruct entries as [|e rest]; [reflexivity|].
  unfold labelsKids.
  change (collectValuesWith lower (Text indent8 :: ?l)) with (collectValuesWith lower l).
  rewrite collectValues_app, collectValues_joined. cbn. now rewrite app_nil_r.
Qed.

(** What is read back from the document generated from plain entries. *)
Lemma extract_generated_with entries :
  forallb (plainEntryWith wide) entries = true ->
  getDefaultOptionsWith wide keep lower (getUpdatedRootConfig (getUpdatedConfigLbl entries))
  = Some ([], Normal (map (fun e => lower (valueOf e)) entries)).
Proof.
  intros H. unfold getDefaultOptionsWith. rewrite parse_document_with by exact H.
  cbn [option_map]. unfold extractFromDocumentWith.
  cbn [doc_childNodes viewElement node_childNodes].
  change (findLabelsNode _) with (Some (labelsElement entries)).
  unfold ret. do 3 f_equal. apply collectValues_labelsKids.
Qed.

End ParserLemmas.

(** The same for the model confined to ASCII documents. *)
Section NarrowLemmas.
Import Js Xml Eff Labels Markup.

Lemma parse_fragment entries :
  forallb plainEntry entries = true ->
  parseFromString (getUpdatedConfigLbl entries)
  = Some (mkDocument [labelsElement entries]).
Proof.
  intros H. apply parse_fragment_with. now apply plainEntries_with.
Qed.

Lemma parse_document entries :
  forallb plainEntry entries = true ->
  parseFromString (getUpdatedRootConfig (getUpdatedConfigLbl entries))
  = Some (mkDocument [viewElement (labelsElement entries)]).
Proof.
  intros H. apply parse_document_with. now apply plainEntries_with.
Qed.

Lemma extract_generated entries :
  forallb plainEntry entries = true ->
  getDefaultOptions (getUpdatedRootConfig (getUpdatedConfigLbl entries))
  = Some ([], Normal (map (fun e => toLowerCase (valueOf e)) entries)).
Proof.
  intros H. apply extract_generated_with. now apply plainEntries_with.
Qed.

End NarrowLemmas.

(** ** Resolution of the selection against a table *)

Section Resolution.
Import Js Labels Selection.

(** On a table of string values the search throws nothing. *)
Lemma findItem_firstMatch data key :
  stringValued data = true -> findItem key data = Normal (firstMatch data key).
Proof.
  unfold stringValued, firstMatch.
  induction data as [|itm rest IH]; cbn [forallb findItem find]; intros H;
    [reflexivity|].
  apply andb_true_iff in H as [Hv Hrest].
  destruct (value itm) as [| |n|v|]; try discriminate.
  cbn [call_toLowerCase]. destruct (strictEqStr (toLowerCase v) key); auto.
Qed.

Lemma nth_skipn {A} (d : A) (l : list A) : forall i,
  i < length l -> skipn i l = nth i l d :: skipn (S i) l.
Proof.
  induction l as [|x l IH]; intros i Hi; cbn in Hi; [lia|].
  destruct i as [|i]; [reflexivity|].
  cbn [skipn nth]. apply IH. lia.
Qed.

(** The loop with [n] iterations left at index [i] appends what the rest of
    the selection picks, key by key. *)
Lemma applyLoop_spec data sel :
  stringValued data = true ->
  forall n i labels,
    n + i = length sel ->
    applyLoop data sel n i labels
    = Normal (labels ++ flat_map (picked data) (skipn i sel))%list.
Proof.
  intros Hd. induction n as [|n IH]; intros i labels Hn; cbn [applyLoop].
  - cbn in Hn. subst i. rewrite skipn_all. cbn [flat_map]. now rewrite app_nil_r.
  - rewrite findItem_firstMatch by exact Hd.
    rewrite (nth_skipn JUndefined sel i) by lia.
    cbn [flat_map]. set (k := nth i sel JUndefined).
    change (picked data k)
      with (match firstMatch data k with Some item => [item] | None => [] end).
    destruct (firstMatch data k) as [item|].
    + rewrite IH by lia. now rewrite <- app_assoc.
    + rewrite IH by lia. reflexivity.
Qed.

Lemma resolveSelection_spec data sel :
  stringValued data = true ->
  resolveSelection data sel = Normal (flat_map (picked data) sel).
Proof.
  intros Hd. unfold resolveSelection.
  rewrite applyLoop_spec by (exact Hd || lia). reflexivity.
Qed.

Lemma resolve_dummyData sel :
  resolveSelection dummyData sel = Normal (flat_map (picked dummyData) sel).
Proof. now apply resolveSelection_spec. Qed.

Lemma flat_map_repeat {A B} (f : A -> list B) (k : A) (n : nat) :
  flat_map f (repeat k n) = concat (repeat (f k) n).
Proof. induction n as [|n IH]; cbn; [reflexivity | now rewrite IH]. Qed.

Lemma concat_repeat_single {B} (e : B) (n : nat) : concat (repeat [e] n) = repeat e n.
Proof. induction n as [|n IH]; cbn; [reflexivity | now rewrite IH]. Qed.

Lemma concat_repeat_nil {B} (n : nat) : concat (repeat (@nil B) n) = [].
Proof. induction n as [|n IH]; cbn; [reflexivity | exact IH]. Qed.

(** What the handler does once the selection is resolved. *)
Lemma handleApplySelection_eq persist c :
  handleApplySelection persist c
  = let labels := flat_map (picked dummyData) (labelsSelection c) in
    let document := getUpdatedRootConfig (getUpdatedConfigLbl labels) in
    match persist with
    | Rejected err => ([Eff.SaveNewConfig document], Throw err)
    | Resolved true =>
        ([Eff.SaveNewConfig document; Eff.AddLabel labels],
         Normal (setOpenLblSelection false c))
    | Resolved false =>
        ([Eff.SaveNewConfig document], Normal (setOpenLblSelection false c))
    end.
Proof.
  unfold handleApplySelection. rewrite resolve_dummyData.
  destruct persist as [[|]|err]; reflexivity.
Qed.

End Resolution.

(** ** The empty label after creation *)

Section EmptyLabel.
Import LabelSet.

Lemma findLabelFrom_none l : forall i,
  forallb hasValue l = true -> findLabelFrom None (map node l) i = None.
Proof.
  induction l as [|s l IH]; intros i H; [reflexivity|].
  cbn [forallb] in H. apply andb_true_iff in H as [Hs Hl].
  cbn [map findLabelFrom node c_value]. unfold hasValue in Hs.
  destruct (s_value s); [|discriminate]. cbn [sameValue]. now apply IH.
Qed.

Lemma findLabelFrom_first before s after : forall i,
  forallb hasValue before = true -> s_value s = None ->
  findLabelFrom None (map node (before ++ s :: after)) i = Some (i + length before).
Proof.
  induction before as [|b before IH]; intros i Hb Hs.
  - cbn [app map findLabelFrom node c_value length]. rewrite Hs. cbn. f_equal. lia.
  - cbn [forallb] in Hb. apply andb_true_iff in Hb as [Hb1 Hb2].
    cbn [app map findLabelFrom node c_value length]. unfold hasValue in Hb1.
    destruct (s_value b); [|discriminate]. cbn [sameValue].
    rewrite IH by assumption. f_equal. lia.
Qed.

Lemma callAt_middle (f : Child -> Child) before x after :
  callAt (length before) f (before ++ x :: after) = (before ++ f x :: after)%list.
Proof.
  induction before as [|b before IH]; [reflexivity|].
  cbn [length app callAt]. now rewrite IH.
Qed.

Lemma countEmpty_nodes l : countEmpty (map node l) = 0.
Proof. unfold countEmpty. induction l as [|s l IH]; [reflexivity | exact IH]. Qed.

Lemma countEmpty_app a b : countEmpty (a ++ b) = countEmpty a + countEmpty b.
Proof. unfold countEmpty. now rewrite filter_app, length_app. Qed.

(** The first declared child without a value, if there is one. *)
Lemma split_first_null l :
  forallb hasValue l = true
  \/ exists before s after,
       l = (before ++ s :: after)%list /\ forallb hasValue before = true
       /\ s_value s = None.
Proof.
  induction l as [|x l [IH | (before & s & after & -> & Hb & Hs)]].
  - now left.
  - destruct (hasValue x) eqn:Hx.
    + left. cbn [forallb]. now rewrite Hx, IH.
    + right. exists [], x, l. repeat split. unfold hasValue in Hx.
      now destruct (s_value x).
  - destruct (hasValue x) eqn:Hx.
    + right. exists (x :: before), s, after. repeat split; [|exact Hs].
      cbn [forallb]. now rewrite Hx, Hb.
    + right. exists [], x, (before ++ s :: after)%list. repeat split.
      unfold hasValue in Hx. now destruct (s_value x).
Qed.

(** [findLabel] as modelled finds only a child with the value asked for. *)
Lemma findLabelFrom_sound v cs : forall i j,
  findLabelFrom v cs i = Some j ->
  i <= j /\ exists c, nth_error cs (j - i) = Some c /\ c_value c = v.
Proof.
  induction cs as [|c cs IH]; intros i j H; [discriminate|].
  cbn [findLabelFrom] in H. destruct (sameValue (c_value c) v) eqn:E.
  - injection H as <-. split; [lia|]. rewrite Nat.sub_diag. exists c.
    split; [reflexivity|].
    destruct (c_value c) as [a|], v as [b|]; cbn in E; try discriminate;
      [apply String.eqb_eq in E; now subst | reflexivity].
  - destruct (IH (S i) j H) as (Hle & c' & Hn & Hc). split; [lia|].
    exists c'. split; [|exact Hc].
    replace (j - i) with (S (j - S i)) by lia. exact Hn.
Qed.

Lemma findLabel_sound : soundLookup findLabel.
Proof.
  intros v self i H. unfold findLabel in H. unfold childList.
  destruct (children self) as [cs|]; [|discriminate].
  destruct (findLabelFrom_sound v cs 0 i H) as (_ & c & Hn & Hc).
  rewrite Nat.sub_0_r in Hn. now exists c.
Qed.

(** No lookup by value finds the null value among children that all have
    a value. *)
Lemma lookup_none_valued lookup a l :
  soundLookup lookup -> forallb hasValue l = true ->
  lookup None (mkModel a (Some (map node l))) = None.
Proof.
  intros Hs Hv. destruct (lookup None _) as [i|] eqn:E; [|reflexivity].
  destruct (Hs _ _ _ E) as (c & Hn & Hc). cbn [childList children] in Hn.
  apply nth_error_In, in_map_iff in Hn as (s & <- & Hin).
  rewrite forallb_forall in Hv. specialize (Hv s Hin).
  unfold hasValue in Hv. cbn [node c_value] in Hc. rewrite Hc in Hv. discriminate.
Qed.

Lemma lookup_none_childless lookup a v :
  soundLookup lookup -> lookup v (mkModel a None) = None.
Proof.
  intros Hs. destruct (lookup v _) as [i|] eqn:E; [|reflexivity].
  destruct (Hs _ _ _ E) as (c & Hn & _). cbn [childList children] in Hn.
  now destruct i.
Qed.

Variable fillcolor : string.

(** With allowEmpty on and a value on every declared child, the hook puts
    the empty label before the declared children, whatever the lookup. *)
Lemma createWith_inserts lookup cfg :
  soundLookup lookup ->
  cfg_allowempty cfg = true -> forallb hasValue (declared cfg) = true ->
  childList (createWith fillcolor lookup cfg)
  = sentinel fillcolor :: map node (declared cfg).
Proof.
  intros Hs Ha Hv. destruct cfg as [a [l|]]; cbn in Ha; subst a;
    unfold createWith, afterCreateWith, declared in *;
    cbn [cfg_allowempty cfg_children option_map allowempty children] in *.
  - now rewrite (lookup_none_valued lookup true l Hs Hv).
  - now rewrite (lookup_none_childless lookup true None Hs).
Qed.


Lemma create_inserts cfg :
  cfg_allowempty cfg = true -> forallb hasValue (declared cfg) = true ->
  childList (create fillcolor cfg) = sentinel fillcolor :: map node (declared cfg).
Proof.
  intros Ha Hv. destruct cfg as [a [l|]]; cbn in Ha; subst a;
    unfold create, createWith, afterCreateWith, findLabel, declared in *;
    cbn [cfg_allowempty cfg_children option_map allowempty children] in *.
  - now rewrite findLabelFrom_none.
  - reflexivity.
Qed.

Lemma create_marks cfg before s after :
  cfg_allowempty cfg = true ->
  declared cfg = (before ++ s :: after)%list ->
  forallb hasValue before = true -> s_value s = None ->
  childList (create fillcolor cfg)
  = (map node before ++ setEmpty (node s) :: map node after)%list.
Proof.
  intros Ha Hd Hb Hs. destruct cfg as [a [l|]]; cbn in Ha; subst a;
    unfold create, createWith, afterCreateWith, findLabel, declared in *;
    cbn [cfg_allowempty cfg_children option_map allowempty children] in *.
  - subst l. rewrite findLabelFrom_first by assumption.
    cbn [childList children option_map].
    rewrite map_app. cbn [map plus].
    rewrite <- (length_map node before). apply callAt_middle.
  - destruct before; discriminate.
Qed.

End EmptyLabel.

(** ** Documents without a Labels element, and documents that do not parse *)

Section Absent.
Import Js Xml Eff Labels Markup.

Lemma wellFormedWith_false wide config :
  wellFormedWith wide config = Some false ->
  parseFromStringWith wide false config = Some parsererror.
Proof.
  unfold wellFormedWith, parseFromStringWith.
  destruct (runWith wide start (normalizeEOL config)) as [m stack root| |];
    [|reflexivity|discriminate].
  destruct m; try reflexivity.
  destruct stack; [|reflexivity]. destruct root; [discriminate|reflexivity].
Qed.

Lemma keptDocument_single_root st : exists r, keptDocument st = mkDocument [r].
Proof.
  unfold keptDocument. destruct (treeRead st) as [[tag attrs kids|data|name]|];
    eexists; reflexivity.
Qed.

Lemma parseWith_single_root wide keep config doc :
  parseFromStringWith wide keep config = Some doc -> exists r, doc = mkDocument [r].
Proof.
  unfold parseFromStringWith.
  assert (E : exists r,
             (if keep then keptDocument (lastGoing wide start (normalizeEOL config))
              else parsererror) = mkDocument [r]).
  { destruct keep; [apply keptDocument_single_root | eexists; reflexivity]. }
  destruct E as [e E].
  destruct (runWith wide start (normalizeEOL config)) as [m stack root| |];
    [| intros [= <-]; eexists; exact E | discriminate].
  destruct m; try (intros [= <-]; eexists; exact E).
  destruct stack; [|intros [= <-]; eexists; exact E].
  destruct root; intros [= <-]; eexists; [reflexivity | exact E].
Qed.

Lemma parse_single_root config doc :
  parseFromString config = Some doc -> exists r, doc = mkDocument [r].
Proof. apply parseWith_single_root. Qed.



End Absent.

(** * Properties of Labels.js *)

Import Js Xml Eff Labels LabelSet Markup Selection Samples.

(** ** C1: the empty label after creation *)

(** C1.  For every configuration with allowEmpty on whose declared children
    all have a value, after creation exactly one child is the empty label
    and it is the first child; the declared children follow it in their
    order, however many they are.  This holds for every lookup that finds
    only a child with the value asked for. *)
Theorem C1_empty_label_after_create (fillcolor : string)
    (lookup : option string -> Model -> option nat) (cfg : Config) :
  soundLookup lookup ->
  cfg_allowempty cfg = true ->
  forallb hasValue (declared cfg) = true ->
  countEmpty (childList (createWith fillcolor lookup cfg)) = 1
  /\ childList (createWith fillcolor lookup cfg)
     = sentinel fillcolor :: map node (declared cfg).
Proof.
  intros Hs Ha Hv.
  rewrite (createWith_inserts fillcolor lookup cfg Hs Ha Hv).
  split; [|reflexivity].
  change (sentinel fillcolor :: ?l) with ([sentinel fillcolor] ++ l)%list.
  now rewrite countEmpty_app, countEmpty_nodes.
Qed.

Lemma C1_empty_label_after_create_witness :
  soundLookup findLabel
  /\ cfg_allowempty brandAndProduct = true
  /\ forallb hasValue (declared brandAndProduct) = true
  /\ countEmpty (childList (create "#666" brandAndProduct)) = 1
  /\ childList (create "#666" brandAndProduct)
     = [sentinel "#666";
        node (mkSnapshot "label" (Some "Brand") None);
        node (mkSnapshot "label" (Some "Product") None)].
Proof.
  split; [exact findLabel_sound|]. split; [reflexivity|]. split; [reflexivity|].
  exact (C1_empty_label_after_create "#666" findLabel brandAndProduct
           findLabel_sound eq_refl eq_refl).
Defined.

(** ** C2: a failed save *)

(** C2, counterexample.  The specification states: when saveNewConfig resolves
    falsy, addLabel is not called and the dialog stays open.  With the
    dialog open and nothing selected the handler closes it. *)
Lemma C2_counterexample :
  ~ (forall (c c' : Component) (events : list Event),
       openLblSelection c = true ->
       handleApplySelection (Resolved false) c = (events, Normal c') ->
       (forall labels, ~ In (AddLabel labels) events)
       /\ openLblSelection c' = true).
Proof.
  intros H.
  destruct (H (mkComponent true []) (mkComponent false []) _ eq_refl eq_refl) as [_ F].
  discriminate.
Qed.

(** C2, as amended.  When saveNewConfig resolves falsy, the only store
    action called is saveNewConfig itself (addLabel is not called), the
    pending selection is kept, and the dialog is closed, as it is after a
    successful save.  The dialog is left as it was only when saveNewConfig
    rejects: the handler then stops at the await, with addLabel not
    called. *)
Theorem C2_failed_save (c : Component) :
  let labels := flat_map (picked dummyData) (labelsSelection c) in
  let document := getUpdatedRootConfig (getUpdatedConfigLbl labels) in
  handleApplySelection (Resolved false) c
  = ([SaveNewConfig document], Normal (mkComponent false (labelsSelection c)))
  /\ handleApplySelection (Resolved true) c
     = ([SaveNewConfig document; AddLabel labels],
        Normal (mkComponent false (labelsSelection c)))
  /\ forall err, handleApplySelection (Rejected err) c
                 = ([SaveNewConfig document], Throw err).
Proof.
  cbv zeta. repeat split; intros; now rewrite handleApplySelection_eq.
Qed.

(** ** C3: from entries to a document and back *)

(** C3, counterexample.  The specification states: for every non-empty sequence
    of entries, none the empty label, whose values leave the document well
    formed, the values read back are the lower-cased values of the entries.
    A value with an entity reference leaves the document well formed, and
    the parser hands the value back with the reference replaced.  In the
    same way a tab in a value is read back as a space, a double quote in a
    value ends the value, and a double quote in an id lets the id declare
    a label of its own; each of these documents is well formed. *)
Lemma C3_counterexample :
  ~ (forall entries : list LabelEntry,
       entries <> [] ->
       forallb (fun e => negb (isEmpty e)) entries = true ->
       wellFormed (getUpdatedRootConfig (getUpdatedConfigLbl entries)) = Some true ->
       getDefaultOptions (getUpdatedRootConfig (getUpdatedConfigLbl entries))
       = Some ([], Normal (map (fun e => toLowerCase (valueOf e)) entries)))
  /\ (wellFormed (getUpdatedRootConfig (getUpdatedConfigLbl tabbed)) = Some true
      /\ getDefaultOptions (getUpdatedRootConfig (getUpdatedConfigLbl tabbed))
         = Some ([], Normal ["a b"]))
  /\ (wellFormed (getUpdatedRootConfig (getUpdatedConfigLbl quotedValue)) = Some true
      /\ getDefaultOptions (getUpdatedRootConfig (getUpdatedConfigLbl quotedValue))
         = Some ([], Normal ["x"]))
  /\ (wellFormed (getUpdatedRootConfig (getUpdatedConfigLbl quotedId)) = Some true
      /\ getDefaultOptions (getUpdatedRootConfig (getUpdatedConfigLbl quotedId))
         = Some ([], Normal ["zzz"; "a"])).
Proof.
  split; [|repeat split; vm_compute; reflexivity].
  intros H.
  assert (E : getDefaultOptions
                (getUpdatedRootConfig (getUpdatedConfigLbl questionsAndAnswers))
              = Some ([], Normal ["q&a"])) by (vm_compute; reflexivity).
  rewrite H in E; [| discriminate | reflexivity | vm_compute; reflexivity].
  vm_compute in E. discriminate.
Qed.

(** C3, as amended.  For every sequence of entries whose ids, as written
    into the document, are well-encoded text without a double quote and
    whose values are well-encoded text of characters that an attribute
    value hands back as written (no double quote, less-than sign or
    ampersand, no tab, line end or other control character, neither U+FFFE
    nor U+FFFF): when the document built around the generated fragment is
    well formed, the values read back from it are the lower-cased values of
    the entries, in the same order, and nothing is logged.  This holds for
    the parser confined to ASCII and for the one that takes every
    character, for either error document, and whatever the engine
    lower-cases a character to. *)
Theorem C3_round_trip (wide keep : bool) (lower : string -> string)
    (entries : list LabelEntry) :
  forallb quoteFreeId entries = true ->
  forallb (plainValue wide) entries = true ->
  wellFormedWith wide (getUpdatedRootConfig (getUpdatedConfigLbl entries)) = Some true ->
  getDefaultOptionsWith wide keep lower
    (getUpdatedRootConfig (getUpdatedConfigLbl entries))
  = Some ([], Normal (map (fun e => lower (valueOf e)) entries)).
Proof.
  intros Hq Hv Hwf.
  destruct (document_read wide entries Hq Hv) as [Hgood Hbad].
  unfold wellFormedWith in Hwf.
  destruct (forallb (keyRead wide) entries).
  - unfold getDefaultOptionsWith, parseFromStringWith.
    rewrite (Hgood eq_refl). cbn [option_map]. unfold extractFromDocumentWith.
    cbn [doc_childNodes viewElement node_childNodes].
    change (findLabelsNode _)
      with (Some (labelsElement (map (readEntry wide) entries))).
    unfold ret. do 3 f_equal.
    change (node_childNodes (labelsElement (map (readEntry wide) entries)))
      with (labelsKids (map (readEntry wide) entries)).
    now rewrite collectValues_labelsKids, map_map.
  - specialize (Hbad eq_refl).
    destruct (runWith wide start _); [discriminate Hbad | discriminate Hwf ..].
Qed.

Lemma C3_round_trip_witness :
  forallb quoteFreeId beyondAscii = true
  /\ forallb (plainValue true) beyondAscii = true
  /\ wellFormedWith true (getUpdatedRootConfig (getUpdatedConfigLbl beyondAscii))
     = Some true
  /\ getDefaultOptionsWith true false toLowerCase
       (getUpdatedRootConfig (getUpdatedConfigLbl beyondAscii))
     = Some ([], Normal [toLowerCase naive; "push press"]).
Proof.
  split; [reflexivity|]. split; [reflexivity|].
  split; [vm_compute; reflexivity|].
  apply (C3_round_trip true false toLowerCase beyondAscii);
    [reflexivity | reflexivity | vm_compute; reflexivity].
Defined.

(** ** C5: the generated fragment *)

(** C5, counterexample.  The sentence of the specification ends: entries flagged as the
    empty label are never emitted into the fragment.  The fragment made
    from such an entry declares it.  The sentence begins: for every
    sequence of entries the fragment holds exactly one child declaration
    per entry.  The fragment made from one entry whose value holds a double
    quote declares two labels. *)
Lemma C5_counterexample :
  ~ (forall (entries : list LabelEntry) (e : LabelEntry) (kids : list Node),
       In e entries -> isEmpty e = true ->
       parseFromString (getUpdatedConfigLbl entries)
       = Some (mkDocument [Element "Labels" labelsAttrs kids]) ->
       ~ In (declNode e) kids)
  /\ ~ (forall (entries : list LabelEntry) (kids : list Node),
          parseFromString (getUpdatedConfigLbl entries)
          = Some (mkDocument [Element "Labels" labelsAttrs kids]) ->
          length (filter isElement kids) = length entries).
Proof.
  split; intros H.
  - refine (H [emptyLabelEntry] emptyLabelEntry
              (labelsKids [emptyLabelEntry]) _ eq_refl _ _).
    + now left.
    + vm_compute. reflexivity.
    + right. left. reflexivity.
  - specialize (H twoInOne
                  [Text indent8;
                   Element "Label" [mkAttr "key" "1"; mkAttr "value" "x"] [];
                   Element "Label" [mkAttr "key" "9"; mkAttr "value" "y"] [];
                   Text indent6]).
    assert (E : 2 = 1) by (apply H; vm_compute; reflexivity).
    discriminate E.
Qed.

(** C5, as amended.  For every sequence of entries whose ids and values
    are written as well-encoded text of plain characters only (no double
    quote, less-than sign or ampersand, no tab, line end or other control
    character, neither U+FFFE nor U+FFFF), the fragment is the declaration
    of one Labels element with the attributes name tricks, toName audio and
    choice multiple.  Its children are white space, then one Label per
    entry, in input order, each with the entry's id as key and the entry's
    value as value, two neighbours separated by a comma, then white space.
    The flag of the empty label plays no part: a flagged entry is declared
    like every other entry. *)
Theorem C5_fragment (wide keep : bool) (entries : list LabelEntry) :
  forallb (plainEntryWith wide) entries = true ->
  parseFromStringWith wide keep (getUpdatedConfigLbl entries)
  = Some (mkDocument
            [Element "Labels"
               [mkAttr "name" "tricks"; mkAttr "toName" "audio";
                mkAttr "choice" "multiple"]
               match entries with
               | [] => [Text (indent8 ++ indent6)]
               | _ => (Text indent8 :: joinedNodes entries ++ [Text indent6])%list
               end])
  /\ filter isElement (joinedNodes entries) = map declNode entries
  /\ filter (fun n => negb (isElement n)) (joinedNodes entries)
     = repeat (Text ",") (length entries - 1).
Proof.
  intros H. split; [|split].
  - now apply parse_fragment_with.
  - clear H. induction entries as [|e rest IH]; [reflexivity|].
    destruct rest as [|e2 rest]; [reflexivity|].
    change (joinedNodes (e :: e2 :: rest))
      with (declNode e :: Text "," :: joinedNodes (e2 :: rest)).
    cbn [filter isElement declNode]. cbn [map]. f_equal. apply IH.
  - clear H. induction entries as [|e rest IH]; [reflexivity|].
    destruct rest as [|e2 rest]; [reflexivity|].
    change (joinedNodes (e :: e2 :: rest))
      with (declNode e :: Text "," :: joinedNodes (e2 :: rest)).
    cbn [filter isElement declNode negb]. rewrite IH.
    cbn [length Nat.sub]. now rewrite Nat.sub_0_r.
Qed.

Lemma C5_fragment_witness :
  forallb (plainEntryWith true) (emptyLabelEntry :: mkEntry (JNum 7) (JStr naive) false
                                 :: dummyData) = true
  /\ parseFromStringWith true false
       (getUpdatedConfigLbl (emptyLabelEntry :: mkEntry (JNum 7) (JStr naive) false
                             :: dummyData))
     = Some (mkDocument
               [Element "Labels" labelsAttrs
                  (Text indent8
                   :: joinedNodes (emptyLabelEntry :: mkEntry (JNum 7) (JStr naive) false
                                   :: dummyData)
                   ++ [Text indent6])%list]).
Proof.
  split; [reflexivity|].
  exact (proj1 (C5_fragment true false
                  (emptyLabelEntry :: mkEntry (JNum 7) (JStr naive) false :: dummyData)
                  eq_refl)).
Defined.

(** ** C9: no Labels element, or no well-formed document *)




(** ** C4: the table the selection is resolved against *)

(** C4.  The specification states: every pending key is resolved against
    the fetched options.  The code at the store state in which the fetched options are
    the single option of value A, offered by the select under the key a:
    the key a, selected and applied, matches that option in the fetched
    options, yet the handler resolves it against dummyData, finds nothing,
    and calls addLabel with no label. *)
Theorem C4_fetched_option_not_resolved :
  getLabelSelectOptions fetchedOptions
  = Normal [mkSelectOption (JNum 1) "a" (JStr "A")]
  /\ firstMatch fetchedOptions (JStr "a") = Some (mkEntry (JNum 1) (JStr "A") false)
  /\ handleApplySelection (Resolved true) (mkComponent true [JStr "a"])
     = ([SaveNewConfig (getUpdatedRootConfig (getUpdatedConfigLbl [])); AddLabel []],
        Normal (mkComponent false [JStr "a"])).
Proof.
  split; [reflexivity|]. split; [reflexivity|].
  rewrite handleApplySelection_eq. reflexivity.
Qed.

(** ** C6: what the selection holds when the dialog opens *)

(** C6, counterexample.  The specification states: when the dialog is opened the
    pending selection is seeded, from the configuration document when there
    are no labels.  With no labels and a document that declares
    air_squat.up, the component mounts with that value selected; the user
    selects push_press.up instead, discards and opens again: the selection
    is the edited one, not the values of the document. *)
Lemma C6_counterexample :
  ~ (forall (s : Store) (events : list Event) (c : Component)
            (edit : list Val) (existing : list string),
       labelsData s = [] ->
       mount s = Some (events, Normal c) ->
       getDefaultOptions (config s) = Some ([], Normal existing) ->
       labelsSelection
         (handleAddLabel (handleDiscardSelection (handleLabelSelectionChange edit c)))
       = map JStr existing).
Proof.
  intros H.
  assert (M : mount declaredStore
              = Some ([FetchLabelOptions],
                      Normal (mkComponent false [JStr "air_squat.up"])))
    by (vm_compute; reflexivity).
  assert (G : getDefaultOptions (config declaredStore)
              = Some ([], Normal ["air_squat.up"]))
    by (vm_compute; reflexivity).
  specialize (H declaredStore _ _ [JStr "push_press.up"] _ eq_refl M G).
  clear M G. discriminate H.
Qed.

(** C6, as amended.  Opening the dialog sets it open and leaves the pending
    selection as it is.  The selection is seeded by the effect that runs
    after the first render and whenever the number of labels changes: with
    no labels it becomes the values that getDefaultOptions returns for the
    configuration document; with labels the effect leaves the selection as
    it is and hands the fragment made from the labels to
    reAssignConfigLbl. *)
Theorem C6_seeding (s : Store) (c : Component) :
  handleAddLabel c = mkComponent true (labelsSelection c)
  /\ (forall events existing,
        labelsData s = [] ->
        getDefaultOptions (config s) = Some (events, Normal existing) ->
        labelsEffect s c
        = Some (events, Normal (mkComponent (openLblSelection c) (map JStr existing))))
  /\ (labelsData s <> [] ->
      labelsEffect s c
      = Some ([ReAssignConfigLbl (getUpdatedConfigLbl (labelsData s))], Normal c)).
Proof.
  split; [reflexivity|]. split.
  - intros events existing Hl Hg. unfold labelsEffect. rewrite Hl, Hg.
    cbn. now rewrite app_nil_r.
  - intros Hl. unfold labelsEffect.
    destruct (labelsData s) as [|e rest]; [congruence | reflexivity].
Qed.

Lemma C6_seeding_witness :
  labelsData declaredStore = []
  /\ labelsEffect declaredStore (mkComponent false [])
     = Some ([], Normal (mkComponent false [JStr "air_squat.up"]))
  /\ labelsEffect (mkStore EmptyString dummyData [] false (Some EmptyString))
                  (mkComponent false [JToLowerCase])
     = Some ([ReAssignConfigLbl (getUpdatedConfigLbl dummyData)],
             Normal (mkComponent false [JToLowerCase])).
Proof.
  split; [reflexivity|]. split.
  - refine (proj1 (proj2 (C6_seeding declaredStore (mkComponent false [])))
              [] ["air_squat.up"] eq_refl _).
    vm_compute. reflexivity.
  - refine (proj2 (proj2 (C6_seeding
              (mkStore EmptyString dummyData [] false (Some EmptyString))
              (mkComponent false [JToLowerCase]))) _).
    discriminate.
Defined.

(** ** C7: when Apply selection is disabled *)



(** ** C8: discarding the selection *)

(** C8, counterexample.  The specification states: discard drops the pending
    selection, so that the dialog opened again does not retain the edits
    made before.  With air_squat.up selected in the open dialog, after
    discard and a new opening the selection is still air_squat.up. *)
Lemma C8_counterexample :
  ~ (forall (c : Component) (edit : list Val),
       labelsSelection
         (handleAddLabel (handleDiscardSelection (handleLabelSelectionChange edit c)))
       = labelsSelection c).
Proof.
  intros H. specialize (H (mkComponent true []) [JStr "air_squat.up"]).
  discriminate.
Qed.

(** C8, as amended.  Discard closes the dialog and changes nothing else: it
    calls no store action, so the labels and the catalog are as before, and
    it keeps the pending selection, so that the dialog opened again shows
    the edits made before the discard. *)
Theorem C8_discard (c : Component) (edit : list Val) :
  handleDiscardSelection c = mkComponent false (labelsSelection c)
  /\ handleAddLabel (handleDiscardSelection (handleLabelSelectionChange edit c))
     = mkComponent true edit.
Proof. split; reflexivity. Qed.

(** ** C10: order and repetition in the resolved list *)

(** C10.  The resolved list is made key by key in the order of the pending
    selection: resolving never throws, the list for a selection put
    together from two parts is the list for the first part followed by the
    list for the second, and a key repeated n times yields its item n
    times.  Two keys selected against the order of the table are resolved
    in the order selected, and a key selected twice makes addLabel receive
    its item twice. *)
Theorem C10_selection_order :
  (forall sel, resolveSelection dummyData sel
               = Normal (flat_map (picked dummyData) sel))
  /\ (forall sel1 sel2, exists labels1 labels2,
        resolveSelection dummyData sel1 = Normal labels1
        /\ resolveSelection dummyData sel2 = Normal labels2
        /\ resolveSelection dummyData (sel1 ++ sel2) = Normal (labels1 ++ labels2)%list)
  /\ (forall key n,
        resolveSelection dummyData (repeat key n)
        = Normal match firstMatch dummyData key with
                 | Some item => repeat item n
                 | None => []
                 end)
  /\ resolveSelection dummyData [JStr "air_squat.up"; JStr "air_squat.down"]
     = Normal [mkEntry (JNum 2) (JStr "air_squat.up") false;
               mkEntry (JNum 1) (JStr "air_squat.down") false]
  /\ fst (handleApplySelection (Resolved true)
            (mkComponent true [JStr "push_press.up"; JStr "push_press.up"]))
     = [SaveNewConfig
          (getUpdatedRootConfig
             (getUpdatedConfigLbl
                [mkEntry (JNum 4) (JStr "push_press.up") false;
                 mkEntry (JNum 4) (JStr "push_press.up") false]));
        AddLabel [mkEntry (JNum 4) (JStr "push_press.up") false;
                  mkEntry (JNum 4) (JStr "push_press.up") false]].
Proof.
  split; [exact resolve_dummyData|]. split; [|split; [|split]].
  - intros sel1 sel2. exists (flat_map (picked dummyData) sel1),
      (flat_map (picked dummyData) sel2).
    rewrite !resolve_dummyData. now rewrite flat_map_app.
  - intros key n. rewrite resolve_dummyData, flat_map_repeat. unfold picked.
    destruct (firstMatch dummyData key).
    + now rewrite concat_repeat_single.
    + now rewrite concat_repeat_nil.
  - reflexivity.
  - now rewrite handleApplySelection_eq.
Qed.

(** * Further properties *)

Import More.

(** ** The hook afterCreate *)

Section HookFacts.

Lemma findLabelFrom_callAt (f : Child -> Child) v :
  (forall c, c_value (f c) = c_value c) ->
  forall cs i j, findLabelFrom v (callAt i f cs) j = findLabelFrom v cs j.
Proof.
  intros Hf. induction cs as [|c cs IH]; intros i j; [now destruct i|].
  destruct i as [|i]; cbn [callAt findLabelFrom].
  - now rewrite Hf.
  - now rewrite IH.
Qed.

Lemma callAt_idempotent (f : Child -> Child) :
  (forall c, f (f c) = f c) ->
  forall cs i, callAt i f (callAt i f cs) = callAt i f cs.
Proof.
  intros Hf. induction cs as [|c cs IH]; intros i; [now destruct i|].
  destruct i as [|i]; cbn [callAt].
  - now rewrite Hf.
  - now rewrite IH.
Qed.

Lemma shape_node l : map shape (map node l) = l.
Proof.
  induction l as [|s l IH]; [reflexivity|].
  cbn [map]. rewrite IH. now destruct s.
Qed.

Lemma hasValue_split before s after :
  s_value s = None -> forallb hasValue (before ++ s :: after) = false.
Proof.
  intros Hs. rewrite forallb_app. cbn [forallb]. unfold hasValue at 2.
  rewrite Hs. cbn. apply andb_false_r.
Qed.

End HookFacts.

(** X1.  Running the hook a second time changes nothing: the label it
    inserted or marked the first time is the one it finds and marks
    again. *)
Theorem afterCreate_idempotent (fillcolor : string) (self : Model) :
  afterCreate fillcolor (afterCreate fillcolor self) = afterCreate fillcolor self.
Proof.
  assert (Hv : forall c, c_value (setEmpty c) = c_value c) by reflexivity.
  assert (Hi : forall c, setEmpty (setEmpty c) = setEmpty c) by reflexivity.
  destruct self as [[|] kids]; [|reflexivity].
  destruct kids as [cs|]; [|reflexivity].
  destruct (findLabelFrom None cs 0) as [i|] eqn:E.
  - assert (A : afterCreate fillcolor (mkModel true (Some cs))
                = mkModel true (Some (callAt i setEmpty cs))).
    { unfold afterCreate, afterCreateWith, findLabel.
      cbn [allowempty children]. now rewrite E. }
    rewrite A. unfold afterCreate, afterCreateWith, findLabel. cbn [allowempty children].
    rewrite findLabelFrom_callAt, E by exact Hv.
    cbn [option_map]. now rewrite callAt_idempotent.
  - assert (A : afterCreate fillcolor (mkModel true (Some cs))
                = mkModel true (Some (sentinel fillcolor :: cs))).
    { unfold afterCreate, afterCreateWith, findLabel.
      cbn [allowempty children]. now rewrite E. }
    rewrite A. reflexivity.
Qed.

(** X2.  Creation keeps every declared child as declared, in the declared
    order; the one child it may add is a label without value and of the
    default colour, in front, and it adds it exactly when allowEmpty is on
    and every declared child has a value. *)
Theorem create_keeps_declared (fillcolor : string) (cfg : Config) :
  map shape (childList (create fillcolor cfg))
  = ((if cfg_allowempty cfg && forallb hasValue (declared cfg)
      then [emptyParams fillcolor] else []) ++ declared cfg)%list.
Proof.
  destruct (cfg_allowempty cfg) eqn:Ha.
  - destruct (split_first_null (declared cfg))
      as [Hv | (before & s & after & Hd & Hb & Hs)].
    + rewrite (create_inserts fillcolor cfg Ha Hv), Hv.
      cbn [andb map app]. now rewrite shape_node.
    + rewrite (create_marks fillcolor cfg before s after Ha Hd Hb Hs).
      rewrite Hd at 1. rewrite hasValue_split by exact Hs. cbn [andb app].
      rewrite map_app. cbn [map]. rewrite !shape_node. rewrite Hd.
      now destruct s.
  - cbn [andb app]. destruct cfg as [a [l|]]; cbn in Ha; subst a.
    + unfold create, createWith, afterCreateWith. cbn. apply shape_node.
    + reflexivity.
Qed.

(** ** Reading values back with getDefaultOptions *)

Section ExtractionFacts.

Lemma lowerChar_idempotent c : lowerChar (lowerChar c) = lowerChar c.
Proof. destruct c as [[] [] [] [] [] [] [] []]; reflexivity. Qed.

Lemma toLowerCase_idempotent s : toLowerCase (toLowerCase s) = toLowerCase s.
Proof.
  induction s as [|c s IH]; [reflexivity|].
  cbn [toLowerCase]. now rewrite lowerChar_idempotent, IH.
Qed.

Lemma collectValues_lower kids :
  Forall (fun v => toLowerCase v = v) (collectValues kids).
Proof.
  unfold collectValues.
  induction kids as [|n kids IH]; cbn [collectValuesWith]; [constructor|].
  destruct (node_attributes n) as [attrs|]; [|exact IH].
  destruct (getNamedItem "value" attrs); [|exact IH].
  constructor; [apply toLowerCase_idempotent | exact IH].
Qed.

Lemma getDefaultOptions_eq config :
  getDefaultOptions config = option_map extractFromDocument (parseFromString config).
Proof. reflexivity. Qed.

(** The two ways in which the search through a parsed document ends. *)
Lemma extract_single r :
  (exists labelsNode,
     findLabelsNode (node_childNodes r) = Some labelsNode
     /\ extractFromDocument (mkDocument [r])
        = ([], Normal (collectValues (node_childNodes labelsNode))))
  \/ extractFromDocument (mkDocument [r]) = ([ConsoleError notFoundMsg], Normal []).
Proof.
  unfold extractFromDocument, extractFromDocumentWith. cbn [doc_childNodes].
  destruct (findLabelsNode (node_childNodes r)) as [labelsNode|].
  - left. exists labelsNode. split; reflexivity.
  - right. reflexivity.
Qed.

Lemma joinedNodes_names entries :
  forallb (fun n => negb (String.eqb (nodeName n) "Labels")) (joinedNodes entries) = true.
Proof.
  induction entries as [|e rest IH]; [reflexivity|].
  destruct rest as [|e2 rest]; [reflexivity|].
  change (joinedNodes (e :: e2 :: rest))
    with (declNode e :: Text "," :: joinedNodes (e2 :: rest)).
  cbn [forallb]. rewrite IH. reflexivity.
Qed.

Lemma find_none_forallb {A} (p : A -> bool) l :
  forallb (fun x => negb (p x)) l = true -> find p l = None.
Proof.
  induction l as [|x l IH]; cbn [forallb find]; intros H; [reflexivity|].
  apply andb_true_iff in H as [Hx Hl]. apply negb_true_iff in Hx.
  rewrite Hx. now apply IH.
Qed.

Lemma filter_joinedNodes entries :
  filter isElement (joinedNodes entries) = map declNode entries.
Proof.
  induction entries as [|e rest IH]; [reflexivity|].
  destruct rest as [|e2 rest]; [reflexivity|].
  change (joinedNodes (e :: e2 :: rest))
    with (declNode e :: Text "," :: joinedNodes (e2 :: rest)).
  cbn [filter isElement declNode]. cbn [map]. f_equal. exact IH.
Qed.

Lemma filter_labelsKids entries :
  filter isElement (labelsKids entries) = map declNode entries.
Proof.
  destruct entries as [|e rest]; [reflexivity|].
  unfold labelsKids. cbn [filter isElement].
  rewrite filter_app, filter_joinedNodes.
  change (filter isElement [Text indent6]) with (@nil Node). apply app_nil_r.
Qed.

End ExtractionFacts.

(** X3.  Whatever the document, getDefaultOptions throws nothing, and it
    ends in one of two ways: with the values and no line on the console, or
    with no value and the one line that the Labels node was not found. *)
Theorem getDefaultOptions_outcome (config : string) (r : Labels.Run (list string)) :
  getDefaultOptions config = Some r ->
  (exists values, r = ([], Normal values))
  \/ r = ([ConsoleError notFoundMsg], Normal []).
Proof.
  rewrite getDefaultOptions_eq. intros H.
  destruct (parseFromString config) as [doc|] eqn:P; [|discriminate].
  destruct (parse_single_root config doc P) as [root ->].
  cbn [option_map] in H. injection H as <-.
  destruct (extract_single root) as [(labelsNode & _ & E) | E]; rewrite E.
  - left. eexists. reflexivity.
  - now right.
Qed.

Lemma getDefaultOptions_outcome_witness :
  exists r : Labels.Run (list string),
    getDefaultOptions "<View><Labels><Label value='Up'/><Label/></Labels></View>"
    = Some r
    /\ ((exists values, r = ([], Normal values))
        \/ r = ([ConsoleError notFoundMsg], Normal [])).
Proof.
  exists ([], Normal ["up"]). split; [reflexivity|].
  exact (getDefaultOptions_outcome
           "<View><Labels><Label value='Up'/><Label/></Labels></View>"
           ([], Normal ["up"]) eq_refl).
Defined.

(** X4.  Every value that getDefaultOptions returns is in lower case:
    lower-casing it again gives the same string. *)
Theorem getDefaultOptions_lower (config : string)
    (events : list Labels.Event) (values : list string) :
  getDefaultOptions config = Some (events, Normal values) ->
  Forall (fun v => toLowerCase v = v) values.
Proof.
  rewrite getDefaultOptions_eq. intros H.
  destruct (parseFromString config) as [doc|] eqn:P; [|discriminate].
  destruct (parse_single_root config doc P) as [root ->].
  cbn [option_map] in H. injection H as H.
  destruct (extract_single root) as [(labelsNode & _ & E) | E];
    rewrite E in H; injection H as _ <-.
  - apply collectValues_lower.
  - constructor.
Qed.

Lemma getDefaultOptions_lower_witness :
  getDefaultOptions "<View><Labels><Label value='Push UP'/></Labels></View>"
  = Some ([], Normal ["push up"])
  /\ Forall (fun v => toLowerCase v = v) ["push up"].
Proof.
  split; [reflexivity|].
  exact (getDefaultOptions_lower
           "<View><Labels><Label value='Push UP'/></Labels></View>"
           [] ["push up"] eq_refl).
Defined.

(** X5.  The fragment on its own is not readable by getDefaultOptions: the
    Labels element is then the first node of the document, the search looks
    among its children, finds none named Labels, logs and returns nothing.
    Only the document of getUpdatedRootConfig gives the values back. *)
Theorem getDefaultOptions_bare_fragment (entries : list LabelEntry) :
  forallb plainEntry entries = true ->
  getDefaultOptions (getUpdatedConfigLbl entries)
  = Some ([ConsoleError notFoundMsg], Normal []).
Proof.
  intros H. rewrite getDefaultOptions_eq, parse_fragment by exact H.
  cbn [option_map]. unfold extractFromDocument, extractFromDocumentWith.
  cbn [doc_childNodes labelsElement node_childNodes].
  unfold findLabelsNode. rewrite find_none_forallb; [reflexivity|].
  destruct entries as [|e rest]; [reflexivity|].
  unfold labelsKids. cbn [forallb nodeName]. rewrite forallb_app.
  now rewrite joinedNodes_names.
Qed.

Lemma getDefaultOptions_bare_fragment_witness :
  forallb plainEntry dummyData = true
  /\ getDefaultOptions (getUpdatedConfigLbl dummyData)
     = Some ([ConsoleError notFoundMsg], Normal []).
Proof.
  split; [reflexivity | exact (getDefaultOptions_bare_fragment dummyData eq_refl)].
Defined.

(** X6.  The document generated from plain entries is well formed; its root
    is View, and the elements under the root are Header, Video, Labels and
    Audio, in this order, Labels having one Label per entry. *)
Theorem generated_document_shape (entries : list LabelEntry) :
  forallb plainEntry entries = true ->
  wellFormed (getUpdatedRootConfig (getUpdatedConfigLbl entries)) = Some true
  /\ exists kids labelsKids,
       parseFromString (getUpdatedRootConfig (getUpdatedConfigLbl entries))
       = Some (mkDocument [Element "View" [] kids])
       /\ filter isElement kids
          = [headerNode; videoNode; Element "Labels" labelsAttrs labelsKids; audioNode]
       /\ filter isElement labelsKids = map declNode entries.
Proof.
  intros H. pose proof (parse_document entries H) as P. split.
  - unfold parseFromString, parseFromStringWith in P.
    unfold wellFormed, wellFormedWith.
    destruct (runWith false start
                (normalizeEOL (getUpdatedRootConfig (getUpdatedConfigLbl entries))))
      as [m stack root| |]; [|discriminate|discriminate].
    destruct m; try discriminate. destruct stack; [|discriminate].
    destruct root; [reflexivity|discriminate].
  - eexists. exists (labelsKids entries). split; [exact P|]. split; [reflexivity|].
    apply filter_labelsKids.
Qed.

Lemma generated_document_shape_witness :
  forallb plainEntry dummyData = true
  /\ wellFormed (getUpdatedRootConfig (getUpdatedConfigLbl dummyData)) = Some true.
Proof.
  split; [reflexivity | exact (proj1 (generated_document_shape dummyData eq_refl))].
Defined.

(** X7.  The fragment tells the entries apart by their rendered ids and
    values: two sequences of plain entries with the same fragment have the
    same length and, place by place, the same id text and the same value
    text. *)
Theorem fragment_injective (a b : list LabelEntry) :
  forallb plainEntry a = true -> forallb plainEntry b = true ->
  getUpdatedConfigLbl a = getUpdatedConfigLbl b ->
  map (fun e => (toString (id e), toString (value e))) a
  = map (fun e => (toString (id e), toString (value e))) b.
Proof.
  intros Ha Hb E.
  pose proof (parse_fragment a Ha) as Pa. rewrite E, (parse_fragment b Hb) in Pa.
  injection Pa as Pk.
  assert (D : map declNode a = map declNode b)
    by (rewrite <- !filter_labelsKids; now rewrite Pk).
  clear - D. revert b D. induction a as [|x a IH]; intros [|y b] D; try discriminate.
  - reflexivity.
  - cbn [map] in *. injection D as Hi Hv D. rewrite Hi, Hv. f_equal. now apply IH.
Qed.

Lemma fragment_injective_witness :
  forallb plainEntry dummyData = true
  /\ map (fun e => (toString (id e), toString (value e))) dummyData
     = map (fun e => (toString (id e), toString (value e)))
           (map (fun e => mkEntry (id e) (value e) true) dummyData).
Proof.
  split; [reflexivity|].
  exact (fragment_injective dummyData
           (map (fun e => mkEntry (id e) (value e) true) dummyData)
           eq_refl eq_refl eq_refl).
Defined.

(** ** A value that breaks the document *)

Section BrokenMarkup.

Variable wide : bool.

Lemma joinComma_more y (l : list string) :
  l <> [] -> joinComma (y :: l) = y ++ "," ++ joinComma l.
Proof. destruct l; [congruence | reflexivity]. Qed.

Lemma joinComma_split (a : list string) x b :
  joinComma (a ++ x :: b) = joinPrefix a ++ joinComma (x :: b).
Proof.
  induction a as [|y a IH]; [reflexivity|].
  cbn [app joinPrefix].
  rewrite joinComma_more by (now destruct a).
  rewrite IH, !append_assoc'. reflexivity.
Qed.

Lemma joinComma_cons x (b : list string) : exists t, joinComma (x :: b) = x ++ t.
Proof.
  destruct b as [|y b].
  - exists EmptyString. cbn [joinComma]. now rewrite append_nil_r.
  - eexists. reflexivity.
Qed.

Lemma addKids_nil f : addKids f [] = f.
Proof. destruct f. unfold addKids. cbn. now rewrite app_nil_r. Qed.

Lemma filter_textNode txt : filter isElement (textNode txt) = [].
Proof. now destruct txt. Qed.

(** The declarations before the broken one are read as elements of the
    open Labels element. *)
Lemma run_joinPrefix (entries : list LabelEntry) : forall txt f stack root,
  forallb (plainEntryWith wide) entries = true ->
  exists txt' kids,
    runWith wide (Going (Content txt) (f :: stack) root)
            (joinPrefix (map labelDecl entries))
    = Going (Content txt') (addKids f kids :: stack) root
    /\ filter isElement kids = map declNode entries.
Proof.
  induction entries as [|e rest IH]; intros txt f stack root H.
  - exists txt, []. rewrite addKids_nil. now split.
  - cbn [forallb] in H. apply andb_true_iff in H as [He Hrest].
    cbn [map joinPrefix]. rewrite run_app, run_decl by exact He.
    rewrite run_comma.
    destruct (IH "," (addKids f (textNode txt ++ [declNode e])) stack root Hrest)
      as (txt' & kids & -> & Hk).
    exists txt', ((textNode txt ++ [declNode e]) ++ kids)%list.
    rewrite addKids_addKids. split; [reflexivity|].
    rewrite !filter_app, filter_textNode, Hk. reflexivity.
Qed.

Lemma noCR_joinPrefix entries :
  forallb (plainEntryWith wide) entries = true ->
  noCR (joinPrefix (map labelDecl entries)) = true.
Proof.
  induction entries as [|e rest IH]; intros H; [reflexivity|].
  cbn [forallb] in H. apply andb_true_iff in H as [He Hrest].
  cbn [map joinPrefix]. rewrite !noCR_app, (noCR_labelDecl wide e He), (IH Hrest).
  reflexivity.
Qed.

Lemma run_fragmentHead_in_view :
  runWith wide (Going (Content indent6) [viewFrame] None) fragmentHead
  = Going (Content indent8)
          [mkFrame "Labels" labelsAttrs []; addKids viewFrame [Text indent6]] None.
Proof. reflexivity. Qed.

Lemma step_less_than tag attrs an v stack root :
  stepWith wide (Going (InValue tag attrs an CDQuote v) stack root) "<"%char
  = NotWellFormed.
Proof. reflexivity. Qed.

Lemma regroup (s0 h jp a i b v1 lt v2 c t tl sa : string) :
  s0 ++ (h ++ (jp ++ ((a ++ i ++ b ++ (v1 ++ lt ++ v2) ++ c) ++ t)) ++ tl) ++ sa
  = (s0 ++ h ++ jp ++ a ++ i ++ b ++ v1) ++ lt ++ (v2 ++ c ++ t ++ tl ++ sa).
Proof. now rewrite !append_assoc'. Qed.

(** The document up to the offending character, and the rest. *)
Lemma broken_document_split before e after v1 v2 :
  value e = JStr (v1 ++ "<" ++ v2) ->
  exists rest,
    getUpdatedRootConfig (getUpdatedConfigLbl (before ++ e :: after))
    = (skeletonBefore ++ fragmentHead ++ joinPrefix (map labelDecl before)
       ++ ("<Label key=" ++ dq) ++ toString (id e) ++ (dq ++ " value=" ++ dq)
       ++ v1) ++ "<" ++ rest.
Proof.
  intros Hv. rewrite rootConfig_split.
  change (getUpdatedConfigLbl (before ++ e :: after))
    with (fragmentHead
          ++ joinComma (map labelDecl (before ++ e :: after))
          ++ (indent6 ++ "</Labels>")).
  rewrite map_app. cbn [map]. rewrite joinComma_split.
  destruct (joinComma_cons (labelDecl e) (map labelDecl after)) as [t ->].
  rewrite labelDecl_eq, Hv. cbn [toString].
  eexists. apply regroup.
Qed.

(** Where the parser stands before the offending character. *)
Lemma run_broken_prefix before e v1 :
  forallb (plainEntryWith wide) before = true ->
  plainStrWith wide (toString (id e)) = true -> plainStrWith wide v1 = true ->
  exists txt kids,
    runWith wide start
      (skeletonBefore ++ fragmentHead ++ joinPrefix (map labelDecl before)
       ++ ("<Label key=" ++ dq) ++ toString (id e) ++ (dq ++ " value=" ++ dq)
       ++ v1)
    = Going (InValue "Label" [mkAttr "key" (toString (id e))] "value" CDQuote v1)
            [addKids (mkFrame "Labels" labelsAttrs []) (kids ++ textNode txt);
             addKids viewFrame [Text indent6]] None
    /\ filter isElement kids = map declNode before.
Proof.
  intros Hb Hi Hv.
  rewrite run_app, run_skeletonBefore.
  rewrite run_app, run_fragmentHead_in_view.
  rewrite run_app.
  destruct (run_joinPrefix before indent8 (mkFrame "Labels" labelsAttrs [])
              [addKids viewFrame [Text indent6]] None Hb) as (txt & kids & -> & Hk).
  exists txt, kids. split; [|exact Hk].
  rewrite run_app, run_decl_open.
  rewrite run_app, run_plain by exact Hi.
  rewrite run_app, run_decl_middle.
  rewrite run_plain by exact Hv.
  cbn [flushText]. unfold addKids. cbn [f_tag f_attrs f_kids].
  now rewrite app_assoc.
Qed.

Lemma noCR_broken_prefix before e v1 :
  forallb (plainEntryWith wide) before = true ->
  plainStrWith wide (toString (id e)) = true -> plainStrWith wide v1 = true ->
  noCR (skeletonBefore ++ fragmentHead ++ joinPrefix (map labelDecl before)
        ++ ("<Label key=" ++ dq) ++ toString (id e) ++ (dq ++ " value=" ++ dq)
        ++ v1) = true.
Proof.
  intros Hb Hi Hv. rewrite !noCR_app.
  rewrite (noCR_joinPrefix before Hb), (plainStrWith_noCR wide _ Hi),
    (plainStrWith_noCR wide _ Hv).
  reflexivity.
Qed.

(** The state in which an engine that keeps the tree stops. *)
Lemma lastGoing_app a b : forall st,
  dead (runWith wide st a) = false ->
  lastGoing wide st (a ++ b) = lastGoing wide (runWith wide st a) b.
Proof.
  induction a as [|c a IH]; intros st H; [reflexivity|].
  cbn [append lastGoing runWith] in *.
  destruct (stepWith wide st c) eqn:E; [now apply IH | |now apply IH].
  rewrite run_NotWellFormed in H. discriminate.
Qed.

Variable lower : string -> string.

Lemma collectValues_elements kids :
  collectValuesWith lower kids = collectValuesWith lower (filter isElement kids).
Proof.
  induction kids as [|n kids IH]; [reflexivity|].
  destruct n as [tag attrs sub|data|name]; cbn [filter isElement]; [|exact IH ..].
  cbn [collectValuesWith node_attributes].
  destruct (getNamedItem "value" attrs); now rewrite IH.
Qed.

Lemma collectValues_declared entries :
  collectValuesWith lower (map declNode entries)
  = map (fun e => lower (valueOf e)) entries.
Proof.
  induction entries as [|e rest IH]; [reflexivity|].
  cbn [map]. rewrite <- IH. reflexivity.
Qed.

End BrokenMarkup.

(** X8.  A less-than sign in the value of an entry breaks the generated
    document: when the entries before it are plain, and so are its id and
    the part of its value before the sign, the document is not well formed
    whatever follows.  What getDefaultOptions makes of it depends on the
    engine.  With the error document of the HTML Standard it reads nothing
    back and logs that the Labels node was not found.  With an engine that
    keeps the tree read before the error it logs nothing and returns the
    lower-cased values of the entries before the broken one. *)
Theorem less_than_breaks_document (wide : bool) (lower : string -> string)
    (before after : list LabelEntry) (e : LabelEntry) (v1 v2 : string) :
  forallb (plainEntryWith wide) before = true ->
  plainStrWith wide (toString (id e)) = true ->
  plainStrWith wide v1 = true ->
  value e = JStr (v1 ++ "<" ++ v2) ->
  wellFormedWith wide (getUpdatedRootConfig (getUpdatedConfigLbl (before ++ e :: after)))
  = Some false
  /\ getDefaultOptionsWith wide false lower
       (getUpdatedRootConfig (getUpdatedConfigLbl (before ++ e :: after)))
     = Some ([ConsoleError notFoundMsg], Normal [])
  /\ getDefaultOptionsWith wide true lower
       (getUpdatedRootConfig (getUpdatedConfigLbl (before ++ e :: after)))
     = Some ([], Normal (map (fun b => lower (valueOf b)) before)).
Proof.
  intros Hb Hi Hv He.
  destruct (broken_document_split before e after v1 v2 He) as [rest D].
  destruct (run_broken_prefix wide before e v1 Hb Hi Hv) as (txt & kids & R & K).
  assert (N : normalizeEOL
                (getUpdatedRootConfig (getUpdatedConfigLbl (before ++ e :: after)))
              = (skeletonBefore ++ fragmentHead ++ joinPrefix (map labelDecl before)
                 ++ ("<Label key=" ++ dq) ++ toString (id e)
                 ++ (dq ++ " value=" ++ dq) ++ v1)
                ++ String "<"%char (normalizeEOL rest)).
  { rewrite D.
    change (?p ++ "<" ++ rest) with (p ++ String "<"%char rest).
    rewrite normalizeEOL_sep by reflexivity.
    now rewrite normalizeEOL_noCR by now apply (noCR_broken_prefix wide). }
  assert (F : runWith wide start
                (normalizeEOL
                   (getUpdatedRootConfig (getUpdatedConfigLbl (before ++ e :: after))))
              = NotWellFormed).
  { rewrite N, run_app, R. cbn [runWith]. rewrite step_less_than.
    apply run_NotWellFormed. }
  assert (W : wellFormedWith wide
                (getUpdatedRootConfig (getUpdatedConfigLbl (before ++ e :: after)))
              = Some false).
  { unfold wellFormedWith. now rewrite F. }
  split; [exact W|]. split.
  - unfold getDefaultOptionsWith. now rewrite (wellFormedWith_false wide _ W).
  - unfold getDefaultOptionsWith, parseFromStringWith. rewrite F, N.
    rewrite lastGoing_app by now rewrite R.
    rewrite R. cbn [lastGoing]. rewrite step_less_than.
    cbn [option_map]. unfold keptDocument, treeRead, closeFrames, addKids.
    cbn [f_tag f_attrs f_kids viewFrame app].
    unfold extractFromDocumentWith. cbn [doc_childNodes node_childNodes].
    change (findLabelsNode _)
      with (Some (Element "Labels" labelsAttrs ((kids ++ textNode txt) ++ []))).
    cbn [node_childNodes]. unfold ret. do 3 f_equal.
    rewrite collectValues_elements, !filter_app, filter_textNode, K.
    cbn [filter app]. rewrite !app_nil_r. apply collectValues_declared.
Qed.

Lemma less_than_breaks_document_witness :
  wellFormedWith false
    (getUpdatedRootConfig
       (getUpdatedConfigLbl
          ([mkEntry (JNum 1) (JStr "air_squat.down") false]
           ++ mkEntry (JNum 2) (JStr "a<b") false
           :: [mkEntry (JNum 3) (JStr "push_press.down") false])))
  = Some false
  /\ getDefaultOptionsWith false true toLowerCase
       (getUpdatedRootConfig
          (getUpdatedConfigLbl
             ([mkEntry (JNum 1) (JStr "air_squat.down") false]
              ++ mkEntry (JNum 2) (JStr "a<b") false
              :: [mkEntry (JNum 3) (JStr "push_press.down") false])))
     = Some ([], Normal ["air_squat.down"]).
Proof.
  destruct (less_than_breaks_document false toLowerCase
              [mkEntry (JNum 1) (JStr "air_squat.down") false]
              [mkEntry (JNum 3) (JStr "push_press.down") false]
              (mkEntry (JNum 2) (JStr "a<b") false) "a" "b"
              eq_refl eq_refl eq_refl eq_refl) as (W & _ & K).
  exact (conj W K).
Defined.

(** ** The select and the lookup *)

Section LookupFacts.

Lemma getLabelSelectOptions_strings data :
  stringValued data = true -> getLabelSelectOptions data = Normal (map optionOf data).
Proof.
  unfold stringValued.
  induction data as [|item rest IH]; cbn [forallb getLabelSelectOptions map];
    intros H; [reflexivity|].
  apply andb_true_iff in H as [Hv Hrest].
  unfold optionOf at 1, valueOf. destruct (value item); try discriminate.
  cbn [call_toLowerCase toString]. now rewrite IH.
Qed.

Lemma getLabelSelectOptions_throws data :
  stringValued data = false -> getLabelSelectOptions data = Throw "TypeError".
Proof.
  unfold stringValued.
  induction data as [|item rest IH]; cbn [forallb getLabelSelectOptions];
    intros H; [discriminate|].
  destruct (value item); try reflexivity.
  cbn [call_toLowerCase]. cbn [andb] in H. now rewrite IH.
Qed.

Lemma getLabelSelectOptions_normal data options :
  getLabelSelectOptions data = Normal options ->
  stringValued data = true /\ options = map optionOf data.
Proof.
  intros H. destruct (stringValued data) eqn:S.
  - rewrite getLabelSelectOptions_strings in H by exact S. now injection H as <-.
  - rewrite getLabelSelectOptions_throws in H by exact S. discriminate.
Qed.

(** What the search finds is an item of the table offered under the key. *)
Lemma firstMatch_sound data key item :
  firstMatch data key = Some item ->
  In item data /\ key = keyOf item /\ isString (value item) = true.
Proof.
  unfold firstMatch. intros H. apply find_some in H as [Hin Hp].
  split; [exact Hin|]. unfold keyOf, valueOf.
  destruct (value item) as [| |n|v|]; try discriminate.
  destruct key as [| |n|k|]; try discriminate.
  cbn [strictEqStr] in Hp. apply String.eqb_eq in Hp. cbn [toString]. now subst k.
Qed.

(** The key under which an item is offered finds an item offered under the
    same key. *)
Lemma firstMatch_offered data item :
  In item data -> isString (value item) = true ->
  exists found, firstMatch data (keyOf item) = Some found /\ keyOf found = keyOf item.
Proof.
  intros Hin Hs. unfold firstMatch.
  destruct (find _ data) as [found|] eqn:F.
  - exists found. split; [reflexivity|].
    destruct (firstMatch_sound data (keyOf item) found F) as (_ & E & _). now rewrite <- E.
  - exfalso. apply (find_none _ _ F) in Hin. unfold keyOf, valueOf in Hin.
    destruct (value item) as [| |n|v|]; try discriminate.
    cbn [toString strictEqStr] in Hin. now rewrite String.eqb_refl in Hin.
Qed.

Lemma picked_offered data sel :
  stringValued data = true ->
  (forall key, In key sel -> exists o, In o (map optionOf data) /\ key = JStr (opt_value o)) ->
  map keyOf (flat_map (picked data) sel) = sel.
Proof.
  intros Hd. induction sel as [|key sel IH]; intros H; [reflexivity|].
  cbn [flat_map]. rewrite map_app, IH by (intros k Hk; apply H; now right).
  destruct (H key (or_introl eq_refl)) as (o & Ho & ->).
  apply in_map_iff in Ho as (item & <- & Hin).
  assert (Hs : isString (value item) = true).
  { unfold stringValued in Hd. rewrite forallb_forall in Hd.
    specialize (Hd item Hin). unfold isString. now destruct (value item). }
  change (JStr (opt_value (optionOf item))) with (keyOf item).
  destruct (firstMatch_offered data item Hin Hs) as (found & F & K).
  unfold picked. rewrite F. cbn [map app]. now rewrite K.
Qed.

Lemma findItem_sound data key item :
  findItem key data = Normal (Some item) ->
  In item data /\ key = keyOf item /\ isString (value item) = true.
Proof.
  induction data as [|itm rest IH]; cbn [findItem]; intros H; [discriminate|].
  destruct (value itm) as [| |n|v|] eqn:V; cbn [call_toLowerCase] in H; try discriminate.
  destruct (strictEqStr (toLowerCase v) key) eqn:E.
  - injection H as <-. split; [now left|]. unfold keyOf, valueOf. rewrite V.
    destruct key as [| |n|k|]; try discriminate.
    cbn [strictEqStr] in E. apply String.eqb_eq in E. cbn [toString isString].
    now subst k.
  - destruct (IH H) as (Hin & K & S). split; [now right | now split].
Qed.

Lemma nth_In_sel (sel : list Val) i : i < length sel -> In (nth i sel JUndefined) sel.
Proof. intros H. now apply nth_In. Qed.

Lemma applyLoop_sound data sel : forall n i acc labels,
  n + i = length sel ->
  applyLoop data sel n i acc = Normal labels ->
  length labels <= length acc + n
  /\ forall item, In item labels ->
       In item acc \/ (In item data /\ In (keyOf item) sel).
Proof.
  induction n as [|n IH]; intros i acc labels Hn H; cbn [applyLoop] in H.
  - injection H as <-. split; [lia | auto].
  - destruct (findItem (nth i sel JUndefined) data) as [[found|]|err] eqn:F;
      [| |discriminate].
    + destruct (IH (S i) _ labels ltac:(lia) H) as [Hl Hi].
      rewrite length_app in Hl. cbn [length] in Hl. split; [lia|].
      intros item Hin. destruct (Hi item Hin) as [Ha | Hd]; [|now right].
      apply in_app_or in Ha as [Ha | [<- | []]]; [now left|].
      right. destruct (findItem_sound _ _ _ F) as (Hd & K & _).
      split; [exact Hd|]. rewrite <- K. apply nth_In_sel. lia.
    + destruct (IH (S i) _ labels ltac:(lia) H) as [Hl Hi]. split; [lia | exact Hi].
Qed.

Lemma picked_plain sel :
  forallb plainEntry (flat_map (picked dummyData) sel) = true.
Proof.
  induction sel as [|key sel IH]; [reflexivity|].
  cbn [flat_map]. rewrite forallb_app, IH, andb_true_r.
  unfold picked. destruct (firstMatch dummyData key) as [item|] eqn:F; [|reflexivity].
  destruct (firstMatch_sound _ _ _ F) as (Hin & _ & _).
  cbn [forallb]. rewrite andb_true_r.
  assert (P : forallb plainEntry dummyData = true) by reflexivity.
  rewrite forallb_forall in P. now apply P.
Qed.

Lemma picked_keys data sel :
  map (fun e => toLowerCase (valueOf e)) (flat_map (picked data) sel)
  = matchedKeys data sel.
Proof.
  unfold matchedKeys. induction sel as [|key sel IH]; [reflexivity|].
  cbn [flat_map]. rewrite map_app, IH. f_equal.
  unfold picked. destruct (firstMatch data key) as [item|] eqn:F.
  - destruct (firstMatch_sound _ _ _ F) as (_ & K & _). subst key.
    unfold keyOf in *. now rewrite F.
  - destruct key; try reflexivity. now rewrite F.
Qed.

End LookupFacts.

(** X10.  Apply selection adds no label from outside its table and none
    that was not selected: whatever the selection and the end of the save,
    the labels handed to
    addLabel are items of dummyData, each offered under a key that is in
    the selection, and they are no more than the keys selected. *)
Theorem applied_labels_come_from_table
    (persist : Settled) (c : Component) (labels : list LabelEntry) :
  In (AddLabel labels) (fst (handleApplySelection persist c)) ->
  length labels <= length (labelsSelection c)
  /\ forall item, In item labels ->
       In item dummyData /\ In (keyOf item) (labelsSelection c).
Proof.
  unfold handleApplySelection.
  destruct (resolveSelection dummyData (labelsSelection c)) as [resolved|err] eqn:R.
  - destruct persist as [[|]|err]; cbn;
      [intros [H | [H | []]] | intros [H | []] | intros [H | []]]; try discriminate.
    injection H as <-. unfold resolveSelection in R.
    destruct (applyLoop_sound dummyData (labelsSelection c)
                (length (labelsSelection c)) 0 [] resolved
                (Nat.add_0_r _) R) as [Hl Hi].
    split; [exact Hl|]. intros item Hin. destruct (Hi item Hin) as [[] | Hd]. exact Hd.
  - cbn. intros [].
Qed.

Lemma applied_labels_come_from_table_witness :
  In (AddLabel [mkEntry (JNum 2) (JStr "air_squat.up") false])
     (fst (handleApplySelection (Resolved true)
             (mkComponent true [JStr "air_squat.up"; JStr "snatch"])))
  /\ length [mkEntry (JNum 2) (JStr "air_squat.up") false] <= 2.
Proof.
  assert (H : In (AddLabel [mkEntry (JNum 2) (JStr "air_squat.up") false])
                (fst (handleApplySelection (Resolved true)
                        (mkComponent true [JStr "air_squat.up"; JStr "snatch"]))))
    by (right; left; reflexivity).
  exact (conj H (proj1 (applied_labels_come_from_table _ _ _ H))).
Defined.

(** X11.  When every selected key is one that the select offers for the
    items of dummyData, Apply selection drops nothing: after a save that
    succeeds, addLabel receives one label per selected key, in the order
    selected, the label for a key being an item offered under that key. *)
Theorem offered_keys_all_applied (c : Component) (options : list SelectOption) :
  getLabelSelectOptions dummyData = Normal options ->
  (forall key, In key (labelsSelection c) ->
     exists o, In o options /\ key = JStr (opt_value o)) ->
  exists labels,
    handleApplySelection (Resolved true) c
    = ([SaveNewConfig (getUpdatedRootConfig (getUpdatedConfigLbl labels));
        AddLabel labels],
       Normal (mkComponent false (labelsSelection c)))
    /\ map keyOf labels = labelsSelection c.
Proof.
  intros Ho Hk. apply getLabelSelectOptions_normal in Ho as [Hd ->].
  exists (flat_map (picked dummyData) (labelsSelection c)). split.
  - now rewrite handleApplySelection_eq.
  - now apply picked_offered.
Qed.

Lemma offered_keys_all_applied_witness :
  exists labels,
    handleApplySelection (Resolved true)
      (mkComponent true [JStr "push_press.up"; JStr "air_squat.down"])
    = ([SaveNewConfig (getUpdatedRootConfig (getUpdatedConfigLbl labels));
        AddLabel labels],
       Normal (mkComponent false [JStr "push_press.up"; JStr "air_squat.down"]))
    /\ map keyOf labels = [JStr "push_press.up"; JStr "air_squat.down"].
Proof.
  refine (offered_keys_all_applied
            (mkComponent true [JStr "push_press.up"; JStr "air_squat.down"])
            (map optionOf dummyData) eq_refl _).
  intros key [<- | [<- | []]].
  - exists (optionOf (mkEntry (JNum 4) (JStr "push_press.up") false)).
    split; [|reflexivity]. do 3 right. left. reflexivity.
  - exists (optionOf (mkEntry (JNum 1) (JStr "air_squat.down") false)).
    split; [|reflexivity]. left. reflexivity.
Defined.

(** X12.  What Apply selection saves can be read back: whatever the
    selection and however the save ends, the first store call is
    saveNewConfig with a document from which getDefaultOptions returns,
    without logging, exactly the selected string keys that match an item of
    dummyData, in the order selected. *)
Theorem saved_document_reads_back (persist : Settled) (c : Component) :
  exists document rest,
    fst (handleApplySelection persist c) = SaveNewConfig document :: rest
    /\ getDefaultOptions document
       = Some ([], Normal (matchedKeys dummyData (labelsSelection c))).
Proof.
  exists (getUpdatedRootConfig
            (getUpdatedConfigLbl (flat_map (picked dummyData) (labelsSelection c)))).
  rewrite handleApplySelection_eq. cbv zeta.
  exists (match persist with
          | Resolved true => [AddLabel (flat_map (picked dummyData) (labelsSelection c))]
          | _ => []
          end).
  split; [destruct persist as [[|]|err]; reflexivity|].
  rewrite extract_generated by apply picked_plain.
  now rewrite picked_keys.
Qed.

(** ** The first render *)

Section MountFacts.

Lemma initialSelection_strings data :
  stringValued data = true ->
  initialSelection data = Normal (repeat JToLowerCase (length data)).
Proof.
  unfold stringValued.
  induction data as [|i rest IH]; cbn [forallb initialSelection length repeat];
    intros H; [reflexivity|].
  apply andb_true_iff in H as [Hv Hrest].
  destruct (value i); try discriminate.
  cbn [get_toLowerCase]. now rewrite IH.
Qed.

Lemma initialSelection_nullish data :
  existsb (fun i => nullish (value i)) data = true ->
  initialSelection data = Throw "TypeError".
Proof.
  induction data as [|i rest IH]; cbn [existsb initialSelection]; intros H;
    [discriminate|].
  destruct (value i); cbn [nullish orb get_toLowerCase] in *; try reflexivity;
    now rewrite IH.
Qed.

Lemma functions_pick_nothing n :
  flat_map (picked dummyData) (repeat JToLowerCase n) = [].
Proof. rewrite flat_map_repeat. apply concat_repeat_nil. Qed.

(** The cases of getDefaultOptions, with the events named. *)
Lemma getDefaultOptions_events config events r :
  getDefaultOptions config = Some (events, r) ->
  (exists values, r = Normal values)
  /\ (events = [] \/ events = [ConsoleError notFoundMsg]).
Proof.
  rewrite getDefaultOptions_eq. intros H.
  destruct (parseFromString config) as [doc|] eqn:P; [|discriminate].
  destruct (parse_single_root config doc P) as [root ->].
  cbn [option_map] in H. injection H as H.
  destruct (extract_single root) as [(labelsNode & _ & E) | E];
    rewrite E in H; injection H as <- <-.
  - split; [eexists; reflexivity | now left].
  - split; [eexists; reflexivity | now right].
Qed.

(** The evaluation of the markup goes through when the message is shown or
    every option has a string value, and throws otherwise. *)
Lemma render_normal s :
  errMsgShown s = true \/ stringValued (labelOptions s) = true ->
  render s = Normal tt.
Proof.
  unfold render. intros [H | H].
  - now rewrite H.
  - destruct (errMsgShown s); [reflexivity|].
    now rewrite getLabelSelectOptions_strings.
Qed.

Lemma render_throws s :
  errMsgShown s = false -> stringValued (labelOptions s) = false ->
  render s = Throw "TypeError".
Proof.
  unfold render. intros -> H. now rewrite getLabelSelectOptions_throws.
Qed.

End MountFacts.

(** X13.  With labels that all have string values, and with the message
    shown or options that all have string values, so that the markup is
    evaluated without a throw, the component mounts with the fetch of the
    options and the re-assignment of the fragment made from the labels, the
    dialog closed, and a selection that holds one function object per label
    instead of the labels' values.  Opened and applied as it is, with a
    save that succeeds, that selection matches nothing: addLabel is called
    with no label. *)
Theorem mount_with_labels (s : Store) :
  labelsData s <> [] -> stringValued (labelsData s) = true ->
  errMsgShown s = true \/ stringValued (labelOptions s) = true ->
  let c := mkComponent false (repeat JToLowerCase (length (labelsData s))) in
  mount s
  = Some ([FetchLabelOptions; ReAssignConfigLbl (getUpdatedConfigLbl (labelsData s))],
          Normal c)
  /\ fst (handleApplySelection (Resolved true) (handleAddLabel c))
     = [SaveNewConfig (getUpdatedRootConfig (getUpdatedConfigLbl [])); AddLabel []].
Proof.
  intros Hne Hs Hr. cbv zeta. split.
  - unfold mount. rewrite initialSelection_strings by exact Hs.
    rewrite (render_normal s Hr).
    unfold labelsEffect. destruct (labelsData s); [congruence | reflexivity].
  - rewrite handleApplySelection_eq. cbv zeta.
    cbn [handleAddLabel setOpenLblSelection labelsSelection].
    now rewrite functions_pick_nothing.
Qed.

Lemma mount_with_labels_witness :
  mount (mkStore EmptyString dummyData fetchedOptions false (Some EmptyString))
  = Some ([FetchLabelOptions; ReAssignConfigLbl (getUpdatedConfigLbl dummyData)],
          Normal (mkComponent false (repeat JToLowerCase 6))).
Proof.
  refine (proj1 (mount_with_labels
                   (mkStore EmptyString dummyData fetchedOptions false
                            (Some EmptyString)) _ eq_refl _)).
  - discriminate.
  - right. reflexivity.
Defined.

(** X14.  A label whose value is null or undefined makes the first render
    throw a TypeError before any effect runs: nothing is fetched and no
    store action is called. *)
Theorem mount_throws_on_null (s : Store) :
  existsb (fun i => nullish (value i)) (labelsData s) = true ->
  mount s = Some ([], Throw "TypeError").
Proof.
  intros H. unfold mount. now rewrite initialSelection_nullish.
Qed.

Lemma mount_throws_on_null_witness :
  mount (mkStore EmptyString (dummyData ++ [emptyLabelEntry]) [] false None)
  = Some ([], Throw "TypeError").
Proof.
  exact (mount_throws_on_null
           (mkStore EmptyString (dummyData ++ [emptyLabelEntry]) [] false None) eq_refl).
Defined.

(** X15.  Mounting never saves a configuration and never adds labels: its
    events are among the fetch of the options, the re-assignment of the
    fragment and a line on the console. *)
Theorem mount_is_harmless (s : Store) (events : list Labels.Event)
    (r : Completion Component) :
  mount s = Some (events, r) -> forallb harmless events = true.
Proof.
  unfold mount, labelsEffect.
  destruct (initialSelection (labelsData s)) as [sel|err]; [|now intros [= <- _]].
  destruct (render s) as [[]|err]; [|now intros [= <- _]].
  destruct (0 <? length (labelsData s)); [now intros [= <- _]|].
  destruct (getDefaultOptions (config s)) as [[ev res]|] eqn:G; [|discriminate].
  destruct (getDefaultOptions_events _ _ _ G) as [[values ->] [-> | ->]];
    cbn; now intros [= <- _].
Qed.

Lemma mount_is_harmless_witness :
  mount declaredStore
  = Some ([FetchLabelOptions], Normal (mkComponent false [JStr "air_squat.up"]))
  /\ forallb harmless [@FetchLabelOptions LabelEntry] = true.
Proof.
  assert (M : mount declaredStore
              = Some ([FetchLabelOptions],
                      Normal (mkComponent false [JStr "air_squat.up"])))
    by (vm_compute; reflexivity).
  exact (conj M (mount_is_harmless declaredStore _ _ M)).
Defined.

(** X16.  Mounted without labels on a configuration that
    getUpdatedRootConfig made from plain entries, with the message shown or
    options that all have string values, the component fetches the options
    and starts with the dialog closed and the lower-cased values of those
    entries selected, in their order. *)
Theorem mount_on_generated_config (s : Store) (entries : list LabelEntry) :
  labelsData s = [] ->
  forallb plainEntry entries = true ->
  config s = getUpdatedRootConfig (getUpdatedConfigLbl entries) ->
  errMsgShown s = true \/ stringValued (labelOptions s) = true ->
  mount s = Some ([FetchLabelOptions], Normal (mkComponent false (map keyOf entries))).
Proof.
  intros Hl Hp Hc Hr. unfold mount. rewrite (render_normal s Hr).
  unfold labelsEffect. rewrite Hl, Hc.
  rewrite extract_generated by exact Hp.
  cbn. now rewrite map_map.
Qed.

Lemma mount_on_generated_config_witness :
  mount (mkStore (getUpdatedRootConfig (getUpdatedConfigLbl mixedCase))
                 [] fetchedOptions false (Some EmptyString))
  = Some ([FetchLabelOptions],
          Normal (mkComponent false [JStr "air_squat.down"; JStr "push press"])).
Proof.
  refine (mount_on_generated_config
            (mkStore (getUpdatedRootConfig (getUpdatedConfigLbl mixedCase))
                     [] fetchedOptions false (Some EmptyString))
            mixedCase eq_refl eq_refl eq_refl _).
  right. reflexivity.
Defined.

(** X19.  An option whose value is no string makes the first render throw
    a TypeError when the message is blank: the select is then built, and
    getLabelSelectOptions reads toLowerCase of every option's value.  No
    effect runs: nothing is fetched and the selection is not seeded. *)
Theorem mount_throws_on_option (s : Store) :
  stringValued (labelsData s) = true ->
  errMsgShown s = false ->
  stringValued (labelOptions s) = false ->
  mount s = Some ([], Throw "TypeError").
Proof.
  intros Hs He Ho. unfold mount.
  rewrite initialSelection_strings by exact Hs.
  now rewrite (render_throws s He Ho).
Qed.

Lemma mount_throws_on_option_witness :
  mount (mkStore EmptyString dummyData (fetchedOptions ++ [emptyLabelEntry]) false
                 (Some "  "))
  = Some ([], Throw "TypeError").
Proof.
  exact (mount_throws_on_option
           (mkStore EmptyString dummyData (fetchedOptions ++ [emptyLabelEntry]) false
                    (Some "  "))
           eq_refl eq_refl eq_refl).
Defined.

(** ** The earlier revision *)

(** X18.  In the earlier revision Apply selection saves nothing: whatever
    the selection, it calls addLabel once, with items of its own table that
    are offered under selected keys, and closes the dialog.  Its select
    offers the items of the same table, so that a selection made of offered
    keys is applied in full: one label per key, in the order selected. *)
Theorem part000_apply (c : Component) :
  exists labels,
    Part000.handleApplySelection c
    = ([AddLabel labels], Normal (mkComponent false (labelsSelection c)))
    /\ (forall item, In item labels ->
          In item Part000.dummyData /\ In (keyOf item) (labelsSelection c))
    /\ (forall options,
          Part000.selectOptions = Normal options ->
          (forall key, In key (labelsSelection c) ->
             exists o, In o options /\ key = JStr (opt_value o)) ->
          map keyOf labels = labelsSelection c).
Proof.
  assert (Hd : stringValued Part000.dummyData = true) by reflexivity.
  exists (flat_map (picked Part000.dummyData) (labelsSelection c)).
  pose proof (resolveSelection_spec Part000.dummyData (labelsSelection c) Hd) as R.
  split; [|split].
  - unfold Part000.handleApplySelection. now rewrite R.
  - intros item Hin. unfold resolveSelection in R.
    destruct (applyLoop_sound Part000.dummyData (labelsSelection c)
                (length (labelsSelection c)) 0 [] _ (Nat.add_0_r _) R) as [_ Hi].
    destruct (Hi item Hin) as [[] | H]. exact H.
  - intros options Ho Hk. unfold Part000.selectOptions in Ho.
    apply getLabelSelectOptions_normal in Ho as [_ ->].
    now apply picked_offered.
Qed.

Lemma part000_apply_witness :
  Part000.selectOptions = Normal (map optionOf Part000.dummyData)
  /\ exists labels,
       Part000.handleApplySelection (mkComponent true [JStr "push up"])
       = ([AddLabel labels], Normal (mkComponent false [JStr "push up"]))
       /\ map keyOf labels = [JStr "push up"].
Proof.
  split; [reflexivity|].
  destruct (part000_apply (mkComponent true [JStr "push up"]))
    as (labels & E & _ & K).
  exists labels. split; [exact E|].
  apply (K (map optionOf Part000.dummyData) eq_refl).
  intros key [<- | []].
  exists (optionOf (mkEntry (JNum 2) (JStr "push up") false)).
  split; [|reflexivity]. right. left. reflexivity.
Defined.
